(** * SafeTalk: the chat relay of [server.py]

    A shallow embedding of the moderation pipeline ([check_safe]), the
    broadcast fan-out ([broadcast_json], [remove_client]) and the body of the
    per-connection loop of [handle_client], followed by the properties of the
    specification that concern them.

    Conventions.
    - A Python [str] is the list of its code points, so that [len] is
      [length]; ASCII literals are written [py "..."].
    - The module-level dictionaries and sets are the fields of [state].
      [users] is kept in insertion order, as [users.values()] is iterated.
    - The collaborators the program calls but does not define (the Google token
      verifier, the profanity word list, the Hugging Face endpoint, the
      completion endpoint) are the fields of the class [Collaborators].
    - Effects the program has on the outside (frames sent, sockets closed,
      remote requests, log lines) are appended to the [trace] of the state. *)

From Stdlib Require Import String Ascii QArith.
From stdpp Require Import gmap list.

Local Open Scope Z_scope.

(** ** Python strings *)

Abbreviation str := (list N).

Definition py (s : string) : str :=
  (fun a => N_of_ascii a) <$> list_ascii_of_string s.

(** [str.isspace] for one code point: the code points CPython treats as
    white space. *)
Definition isspace (c : N) : bool :=
  ((9 <=? c) && (c <=? 13) || (28 <=? c) && (c <=? 32) || (c =? 133)
   || (c =? 160) || (c =? 5760) || (8192 <=? c) && (c <=? 8202)
   || (c =? 8232) || (c =? 8233) || (c =? 8239) || (c =? 8287)
   || (c =? 12288))%N.

Fixpoint lstrip (s : str) : str :=
  match s with
  | c :: s' => if isspace c then lstrip s' else s
  | [] => []
  end.

Definition rstrip (s : str) : str := reverse (lstrip (reverse s)).

(** [s.strip()] *)
Definition strip (s : str) : str := rstrip (lstrip s).

(** [s.lower()], on the ASCII range. The program lowers a string only to test
    it for the prefix ["/ai "]; no code point outside [A-Z] lowers to a string
    that starts with one of the four characters of that prefix, so the test is
    the one Python makes. *)
Definition lower (s : str) : str :=
  (fun c => if ((65 <=? c) && (c <=? 90))%N then (c + 32)%N else c) <$> s.

Fixpoint startswith (s p : str) : bool :=
  match p, s with
  | [], _ => true
  | a :: p', b :: s' => (a =? b)%N && startswith s' p'
  | _ :: _, [] => false
  end.

(** Truth value of a string: [bool(s)]. *)
Definition truthy (s : str) : bool :=
  match s with [] => false | _ => true end.

(** ** JSON values, as [json.loads] and [r.json()] return them

    The decoder returns a Python [int] for a number written without
    fraction or exponent, and a [float] for any other: [JInt] is the
    former, of any size; [JNum] is a [float] that is a number, given by its
    exact value; [JInf] and [JNaN] are the floats that are not numbers
    ([JInf true] is the negative one). *)
Unset Elimination Schemes.
Inductive json :=
| JNull
| JBool (b : bool)
| JNum (q : Q)
| JInt (z : Z)
| JInf (negative : bool)
| JNaN
| JStr (s : str)
| JList (l : list json)
| JDict (d : list (str * json)).
Set Elimination Schemes.

Fixpoint assoc {A} (k : str) (d : list (str * A)) : option A :=
  match d with
  | [] => None
  | (k', v) :: d' => if decide (k' = k) then Some v else assoc k d'
  end.

(** [d.get(k, dflt)] on a parsed object. *)
Definition dict_get (d : list (str * json)) (k : str) (dflt : json) : json :=
  default dflt (assoc k d).

(** ** Formatting a score: [f"{x:.2f}"]

    The exact value rounded to two decimals, ties to even. *)
Definition round_half_even (q : Q) : Z :=
  let n := Qnum q in
  let d := Z.pos (Qden q) in
  let f := n / d in
  let r := 2 * (n mod d) in
  if r <? d then f
  else if d <? r then f + 1
  else if Z.even f then f else f + 1.

Definition digit (z : Z) : N := (48 + Z.to_N z)%N.

Fixpoint digits_fuel (fuel : nat) (z : Z) (acc : str) : str :=
  match fuel with
  | O => acc
  | S fuel' =>
      if z <? 10 then digit z :: acc
      else digits_fuel fuel' (z / 10) (digit (z mod 10) :: acc)
  end.

(** Decimal digits of a natural number; a number has no more digits than
    bits. *)
Definition digits (z : Z) : str :=
  digits_fuel (S (Z.to_nat (Z.log2 z))) z [].

Definition format_2f (q : Q) : str :=
  let h := round_half_even (q * 100) in
  let a := Z.abs h in
  (if h <? 0 then py "-" else []) ++
  digits (a / 100) ++ py "." ++ [digit (a mod 100 / 10); digit (a mod 10)].

(** [float(z)] for an [int], which the format [.2f] applies to an [int]
    before it prints it: the nearest number with 53 significant bits, ties
    to even; [None] when the conversion raises [OverflowError], the
    rounded magnitude being [2 ** 1024] or more. *)
Definition float_of_int (z : Z) : option Z :=
  let a := Z.abs z in
  let shift := Z.log2 a + 1 - 53 in
  if shift <=? 0 then Some z
  else
    let q := Z.shiftr a shift in
    let r := a - Z.shiftl q shift in
    let half := Z.shiftl 1 (shift - 1) in
    let q' := if (half <? r) || ((r =? half) && Z.odd q) then q + 1 else q in
    let v := Z.shiftl q' shift in
    if 2 ^ 1024 <=? v then None else Some (Z.sgn z * v).

(** ** Collaborators *)

(** The claims of a verified Google identity token ([idinfo]); a field is
    [None] when the key is absent. *)
Record idinfo := {
  id_email : option str;
  id_name : option str;
  id_picture : option str
}.

Class Collaborators := {
  (** [id_token.verify_oauth2_token(token, ...)]; [None] when it raises. *)
  verify_oauth2_token : json -> option idinfo;
  (** [profanity.contains_profanity] *)
  contains_profanity : str -> bool;
  (** [os.getenv("HF_API_KEY")] *)
  HF_API_KEY : option str;
  (** [http_requests.post(...)] followed by [r.json()], for the text sent;
      [None] when either raises. *)
  hf_inference : str -> option json;
  (** [client.chat.completions.create(...)] and the extraction of the reply
      text; [inr e] when any of it raises [e]. *)
  chat_completion : str -> str + str
}.

(** ** Identities *)

(** The dictionary [verify_google_token] returns. An [email] that is [None]
    in Python is the empty string here: the program only tests it for truth
    before rejecting the token. *)
Record user := { email : str; name : str; pic : str }.

#[global] Instance user_eq_dec : EqDecision user.
Proof. solve_decision. Defined.

Definition verify_google_token `{Collaborators} (token : json) : option user :=
  match verify_oauth2_token token with
  | Some idinfo =>
      Some {| email := default [] (id_email idinfo);
              name := match id_name idinfo with
                      | Some n => n
                      | None => default (py "User") (id_email idinfo)
                      end;
              pic := default [] (id_picture idinfo) |}
  | None => None
  end.

(** ** Events on the wire and effects on the outside *)

(** A connection object ([ws]). *)
Abbreviation ws := nat.

(** The objects the program serialises with [json.dumps], by their ["type"].
    [json.dumps] is one-to-one on them, so a frame is kept as the object. *)
Inductive event :=
| Kick (content : str)
| Warning (content : str)
| System (content : str)
| UserList (online : list user)
| Chat (content sender sender_name sender_pic : str) (timestamp : Z).

#[global] Instance event_eq_dec : EqDecision event.
Proof. solve_decision. Defined.

Inductive effect :=
| Sent (c : ws) (msg : event)        (* [c.send(msg)] went through *)
| Close (c : ws)                     (* [c.close()] *)
| HfPost (text : str)                (* a request to the toxicity model *)
| Flagged (who message reason : str) (* a line of the flagged log *)
| Completion (prompt : str).         (* a request to the completion model *)

#[global] Instance effect_eq_dec : EqDecision effect.
Proof. solve_decision. Defined.

(** What the websockets library knows of a connection. On an [Open] one a
    send goes through. A [Stale] one still reports [open] but its peer is
    gone: the next send raises [ConnectionClosed] and leaves it [Shut]. On a
    [Shut] one (closed, or never opened) [open] is false and a send raises. *)
Inductive link := Open | Stale | Shut.

#[global] Instance link_eq_dec : EqDecision link.
Proof. solve_decision. Defined.

(** ** The state of the process *)

Record state := {
  clients : list ws;
  users : list (ws * user);
  unsafe_counts : gmap ws nat;
  rate_limit_counts : gmap ws nat;
  last_message_times : gmap ws Z;
  banned_emails : gset str;
  links : gmap ws link;
  trace : list effect
}.

Definition set_clients (f : list ws -> list ws) (st : state) : state :=
  {| clients := f (clients st); users := users st;
     unsafe_counts := unsafe_counts st;
     rate_limit_counts := rate_limit_counts st;
     last_message_times := last_message_times st;
     banned_emails := banned_emails st; links := links st;
     trace := trace st |}.

Definition set_users (f : list (ws * user) -> list (ws * user)) (st : state)
  : state :=
  {| clients := clients st; users := f (users st);
     unsafe_counts := unsafe_counts st;
     rate_limit_counts := rate_limit_counts st;
     last_message_times := last_message_times st;
     banned_emails := banned_emails st; links := links st;
     trace := trace st |}.

Definition set_unsafe_counts (f : gmap ws nat -> gmap ws nat) (st : state)
  : state :=
  {| clients := clients st; users := users st;
     unsafe_counts := f (unsafe_counts st);
     rate_limit_counts := rate_limit_counts st;
     last_message_times := last_message_times st;
     banned_emails := banned_emails st; links := links st;
     trace := trace st |}.

Definition set_rate_limit_counts (f : gmap ws nat -> gmap ws nat) (st : state)
  : state :=
  {| clients := clients st; users := users st;
     unsafe_counts := unsafe_counts st;
     rate_limit_counts := f (rate_limit_counts st);
     last_message_times := last_message_times st;
     banned_emails := banned_emails st; links := links st;
     trace := trace st |}.

Definition set_last_message_times (f : gmap ws Z -> gmap ws Z) (st : state)
  : state :=
  {| clients := clients st; users := users st;
     unsafe_counts := unsafe_counts st;
     rate_limit_counts := rate_limit_counts st;
     last_message_times := f (last_message_times st);
     banned_emails := banned_emails st; links := links st;
     trace := trace st |}.

Definition set_banned_emails (f : gset str -> gset str) (st : state) : state :=
  {| clients := clients st; users := users st;
     unsafe_counts := unsafe_counts st;
     rate_limit_counts := rate_limit_counts st;
     last_message_times := last_message_times st;
     banned_emails := f (banned_emails st); links := links st;
     trace := trace st |}.

Definition set_links (f : gmap ws link -> gmap ws link) (st : state) : state :=
  {| clients := clients st; users := users st;
     unsafe_counts := unsafe_counts st;
     rate_limit_counts := rate_limit_counts st;
     last_message_times := last_message_times st;
     banned_emails := banned_emails st; links := f (links st);
     trace := trace st |}.

Definition emit (e : effect) (st : state) : state :=
  {| clients := clients st; users := users st;
     unsafe_counts := unsafe_counts st;
     rate_limit_counts := rate_limit_counts st;
     last_message_times := last_message_times st;
     banned_emails := banned_emails st; links := links st;
     trace := trace st ++ [e] |}.

(** The state at start-up: every table empty. *)
Definition initial : state :=
  {| clients := []; users := []; unsafe_counts := ∅; rate_limit_counts := ∅;
     last_message_times := ∅; banned_emails := ∅; links := ∅; trace := [] |}.

(** ** Computations: state and exceptions *)

Inductive exn := ConnectionClosed | AttributeError | KeyError.

Inductive result (A : Type) :=
| Ok (a : A)
| Raise (e : exn).
Arguments Ok {A} a.
Arguments Raise {A} e.

Definition M (A : Type) : Type := state -> result A * state.

Definition ret {A} (a : A) : M A := fun st => (Ok a, st).

Definition bind {A B} (m : M A) (k : A -> M B) : M B :=
  fun st =>
    match m st with
    | (Ok a, st') => k a st'
    | (Raise e, st') => (Raise e, st')
    end.

Definition raise {A} (e : exn) : M A := fun st => (Raise e, st).

Definition gets {A} (f : state -> A) : M A := fun st => (Ok (f st), st).

Definition modify (f : state -> state) : M unit := fun st => (Ok tt, f st).

Declare Scope M_scope.
Delimit Scope M_scope with M.
Notation "'let*' x ':=' m 'in' k" := (bind m (fun x => k))
  (at level 10, x name, m at level 100, k at level 200) : M_scope.
Notation "m '>>' k" := (bind m (fun _ => k))
  (at level 100, k at level 200, right associativity) : M_scope.

(** ** The moderation pipeline *)

Section Moderation.
Context `{Collaborators}.

Definition check_profanity_text (text : str) : bool :=
  contains_profanity text.

(** The loop [for item in block] of [check_hf_toxicity], started with the
    score found so far; [None] when [item.get] raises because an item is
    not an object. *)
Fixpoint scan_block (block : list json) (toxic_score : json) : option json :=
  match block with
  | [] => Some toxic_score
  | JDict item :: block' =>
      match dict_get item (py "label") JNull with
      | JStr l =>
          if decide (l = py "toxic")
          then scan_block block' (dict_get item (py "score") (JNum 0))
          else scan_block block' toxic_score
      | _ => scan_block block' toxic_score
      end
  | _ :: _ => None
  end.

Definition toxic_score_of (result : json) : option json :=
  match result with
  | JList l =>
      scan_block (match l with JList b :: _ => b | _ => l end) (JNum 0)
  | _ => Some (JNum 0)
  end.

(** [toxic_score > 0.5]; [None] when the comparison raises a type error.
    An [int] is compared by its exact value, whatever its size. *)
Definition gt_half (toxic_score : json) : option bool :=
  match toxic_score with
  | JNum q => Some (negb (Qle_bool q (1 # 2)))
  | JInt z => Some (1 <=? z)
  | JBool b => Some b
  | JInf negative => Some (negb negative)
  | JNaN => Some false
  | _ => None
  end.

(** [f"{toxic_score:.2f}"]; [None] when the formatting raises: the
    conversion of an [int] beyond the range of a [float], or a value that
    has no such format. *)
Definition format_score (toxic_score : json) : option str :=
  match toxic_score with
  | JNum q => Some (format_2f q)
  | JInt z =>
      match float_of_int z with
      | Some v => Some (format_2f (inject_Z v))
      | None => None
      end
  | JBool b => Some (format_2f (if b then 1 else 0))
  | JInf negative => Some (if negative then py "-inf" else py "inf")
  | JNaN => Some (py "nan")
  | _ => None
  end.

Definition flagged_reason (toxic_score : json) : option str :=
  match format_score toxic_score with
  | Some score =>
      Some (py "Toxicity flagged | Score: (" ++ score ++
            py ") | Blocked by Hugging Face Toxicity")
  | None => None
  end.

(** The verdict drawn from what the request returned. Every exception of
    the [try] block ends in the same [except] clause, the one of the
    formatting of the reason too. *)
Definition hf_verdict (response : option json) : bool * str :=
  match response with
  | None => (true, py "HF unavailable")
  | Some result =>
      match toxic_score_of result with
      | None => (true, py "HF unavailable")
      | Some toxic_score =>
          match gt_half toxic_score with
          | None => (true, py "HF unavailable")
          | Some true =>
              match flagged_reason toxic_score with
              | Some reason => (false, reason)
              | None => (true, py "HF unavailable")
              end
          | Some false => (true, py "OK")
          end
      end
  end.

Definition has_key : bool :=
  match HF_API_KEY with Some k => truthy k | None => false end.

Definition check_hf_toxicity (text : str) : M (bool * str) :=
  if has_key
  then (modify (emit (HfPost text)) >> ret (hf_verdict (hf_inference text)))%M
  else ret (true, py "No moderation API key.").

Definition check_safe (text : str) : M (bool * str) :=
  if check_profanity_text text
  then ret (false, py "Profanity detected")
  else check_hf_toxicity text.

End Moderation.

(** ** The transport *)

(** [c.open] *)
Definition is_open (st : state) (c : ws) : bool :=
  match links st !! c with
  | Some Open | Some Stale => true
  | _ => false
  end.

(** [await c.send(msg)] *)
Definition send (c : ws) (msg : event) : M unit :=
  fun st =>
    match links st !! c with
    | Some Open => (Ok tt, emit (Sent c msg) st)
    | Some Stale => (Raise ConnectionClosed, set_links <[c := Shut]> st)
    | _ => (Raise ConnectionClosed, st)
    end.

(** [await c.close()] *)
Definition close (c : ws) : M unit :=
  modify (fun st => emit (Close c) (set_links <[c := Shut]> st)).

(** ** Dictionaries in insertion order: [users] *)

(** [d[k] = v]: an existing key keeps its place. *)
Fixpoint dict_set {V} (k : ws) (v : V) (d : list (ws * V)) : list (ws * V) :=
  match d with
  | [] => [(k, v)]
  | (k', v') :: d' =>
      if decide (k' = k) then (k, v) :: d' else (k', v') :: dict_set k v d'
  end.

(** [d.get(k)] *)
Fixpoint dict_lookup {V} (k : ws) (d : list (ws * V)) : option V :=
  match d with
  | [] => None
  | (k', v) :: d' => if decide (k' = k) then Some v else dict_lookup k d'
  end.

(** [d.pop(k, None)], the dictionary that is left. *)
Fixpoint dict_del {V} (k : ws) (d : list (ws * V)) : list (ws * V) :=
  match d with
  | [] => []
  | (k', v) :: d' =>
      if decide (k' = k) then d' else (k', v) :: dict_del k d'
  end.

(** [l.remove(x)]: the first occurrence goes. *)
Fixpoint list_remove (x : ws) (l : list ws) : list ws :=
  match l with
  | [] => []
  | y :: l' => if decide (y = x) then l' else y :: list_remove x l'
  end.

(** ** Broadcasting *)

(** The five statements of [remove_client] that take [c] out of the
    tables. *)
Definition forget (c : ws) (st : state) : state :=
  set_last_message_times (delete c)
    (set_rate_limit_counts (delete c)
       (set_unsafe_counts (delete c)
          (set_clients (list_remove c)
             (set_users (dict_del c) st)))).

(** [remove_client], over the broadcast it calls. *)
Definition remove_client_with
    (broadcast : event -> option ws -> state -> state) (c : ws) (st : state)
  : state :=
  if decide (c ∈ clients st) then
    let u := dict_lookup c (users st) in
    let st1 := forget c st in
    let st2 :=
      match u with
      | Some u =>
          broadcast (System (name u ++ py " left the chat.")) None st1
      | None => st1
      end in
    broadcast (UserList (snd <$> users st2)) None st2
  else st.

(** One turn of the loop of [broadcast_json]. A send raises nothing but
    [ConnectionClosed]. *)
Definition deliver (remove : ws -> state -> state) (obj : event)
    (except_ws : option ws) (st : state) (c : ws) : state :=
  if negb (bool_decide (except_ws = Some c)) && is_open st c then
    match send c obj st with
    | (Ok _, st') => st'
    | (Raise _, st') => remove c st'
    end
  else st.

(** [broadcast_json] and [remove_client] call each other; [depth] bounds how
    deep removals nest. A removal takes a connection out of [clients] before
    it broadcasts, so the length of [clients] is depth enough
    ([broadcast_depth_enough]). *)
Fixpoint broadcast_json_depth (depth : nat) (obj : event)
    (except_ws : option ws) (st : state) : state :=
  let remove :=
    match depth with
    | O => fun _ st' => st'
    | S depth' => remove_client_with (broadcast_json_depth depth')
    end in
  foldl (deliver remove obj except_ws) st (clients st).

Definition broadcast_json (obj : event) (except_ws : option ws) : M unit :=
  modify (fun st => broadcast_json_depth (length (clients st)) obj except_ws st).

Definition remove_client (c : ws) : M unit :=
  modify (fun st =>
    remove_client_with (broadcast_json_depth (length (clients st))) c st).

Definition broadcast_user_list : M unit :=
  (let* online := gets (fun st => snd <$> users st) in
   broadcast_json (UserList online) None)%M.

Definition broadcast_system (content : str) : M unit :=
  broadcast_json (System content) None.

(** ** The connection handler *)

(** How one turn of the loop [async for raw in ws] ends: with the next turn
    ([continue], or the end of the body) or with [return]. *)
Inductive control := Continue | Return.

Definition warning_sign : str := [9888; 65039]%N.
Definition check_mark : str := [9989]%N.
Definition robot_face : str := [129302]%N.

(** One second, in the microseconds of a [datetime]. *)
Definition second : Z := 1000000.

(** [table[c] += 1], giving the new count; a missing key raises. *)
Definition increment (table : state -> gmap ws nat)
    (set : (gmap ws nat -> gmap ws nat) -> state -> state) (c : ws) : M nat :=
  fun st =>
    match table st !! c with
    | Some n => (Ok (S n), set <[c := S n]> st)
    | None => (Raise KeyError, st)
    end.

Definition ban (e : str) : M unit :=
  modify (set_banned_emails (fun s => {[e]} ∪ s)).

Definition log_flagged (who message reason : str) : M unit :=
  modify (emit (Flagged who message reason)).

Section Handler.
Context `{Collaborators}.

(** The branch [data.get("type") == "auth"]. *)
Definition handle_auth (c : ws) (data : list (str * json)) : M control :=
  let token := dict_get data (py "token") JNull in
  match verify_google_token token with
  | Some user =>
      if negb (truthy (email user)) then
        (send c (Kick (py "Invalid Google Sign-In")) >> close c >>
         ret Return)%M
      else
        (let* banned := gets (fun st =>
                          bool_decide (email user ∈ banned_emails st)) in
         if banned : bool then
           send c (Kick (py "You are banned.")) >> close c >> ret Return
         else
           let* active := gets (fun st =>
                            bool_decide
                              (email user ∈ (email ∘ snd) <$> users st)) in
           if active : bool then
             send c (Kick (warning_sign ++
                           py " This account is already active.")) >>
             close c >> ret Return
           else
             modify (set_users (dict_set c user)) >>
             modify (set_unsafe_counts <[c := 0%nat]>) >>
             modify (set_rate_limit_counts <[c := 0%nat]>) >>
             broadcast_system (name user ++ py " joined the chat!") >>
             broadcast_user_list >>
             send c (System (check_mark ++ py " Connected to SafeTalk")) >>
             ret Continue)%M
  | None =>
      (send c (Kick (py "Invalid Google Sign-In")) >> close c >>
       ret Return)%M
  end.

(** The rate limit has let [msg] through: the command [/ai] or an ordinary
    message. *)
Definition handle_content (c : ws) (user : user) (now : Z) (msg : str)
  : M control :=
  if startswith (lower msg) (py "/ai ") then
    let prompt := strip (drop 4 msg) in
    (let* verdict := check_safe prompt in
     if fst verdict then
       modify (emit (Completion prompt)) >>
       let ai_reply :=
         match chat_completion prompt with
         | inl content => strip content
         | inr e => py "Error: " ++ e
         end in
       broadcast_json
         (Chat (robot_face ++ py " " ++ ai_reply) (py "AI") (py "AI") [] now)
         None >>
       ret Continue
     else
       let* n := increment unsafe_counts set_unsafe_counts c in
       log_flagged (email user) prompt (snd verdict) >>
       send c (Warning (warning_sign ++ py " AI prompt blocked: " ++
                        snd verdict)) >>
       if (3 <=? n)%nat then
         ban (email user) >>
         send c (Kick (py "Banned for unsafe inputs.")) >>
         close c >> ret Continue
       else ret Continue)%M
  else
    (let* verdict := check_safe msg in
     if fst verdict then
       broadcast_json
         (Chat msg (email user) (name user) (pic user) now) None >>
       ret Continue
     else
       let* n := increment unsafe_counts set_unsafe_counts c in
       log_flagged (email user) msg (snd verdict) >>
       send c (Warning (warning_sign ++ py " Blocked: " ++ snd verdict)) >>
       if (3 <=? n)%nat then
         ban (email user) >>
         send c (Kick (py "Banned for repeated unsafe messages.")) >>
         close c >> ret Return
       else ret Continue)%M.

(** The branch [data.get("type") == "chat"] of an authenticated
    connection. *)
Definition handle_chat (c : ws) (user : user) (now : Z)
    (data : list (str * json)) : M control :=
  match dict_get data (py "content") (JStr []) with
  | JStr content =>
      let msg := strip content in
      if negb (truthy msg) then ret Continue
      else if (200 <? length msg)%nat then
        (send c (Warning (py "Message too long.")) >> ret Continue)%M
      else
        (let* last := gets (fun st => last_message_times st !! c) in
         if match last with
            | Some last => now - last <? second
            | None => false
            end
         then
           let* n := increment rate_limit_counts set_rate_limit_counts c in
           send c (Warning (py "Too fast! Slow down.")) >>
           if (5 <=? n)%nat then
             ban (email user) >>
             send c (Kick (py "Banned for spamming.")) >>
             close c >> ret Return
           else ret Continue
         else
           modify (set_last_message_times <[c := now]>) >>
           handle_content c user now msg)%M
  | _ => raise AttributeError
  end.

Definition has_type (data : list (str * json)) (t : string) : bool :=
  match dict_get data (py "type") JNull with
  | JStr s => bool_decide (s = py t)
  | _ => false
  end.

(** The body of the loop of [handle_client] for the frame [raw], read at
    time [now]. [raw] is what [json.loads] makes of the frame, [None] when
    it raises. *)
Definition handle_message (c : ws) (now : Z) (raw : option json)
  : M control :=
  match raw with
  | None => ret Continue
  | Some (JDict data) =>
      if has_type data "auth" then handle_auth c data
      else
        (let* u := gets (fun st => dict_lookup c (users st)) in
         match u with
         | None =>
             send c (Kick (py "Not authenticated.")) >> close c >>
             ret Return
         | Some user =>
             if has_type data "chat" then handle_chat c user now data
             else ret Continue
         end)%M
  | Some _ => raise AttributeError
  end.

(** [handle_client] up to its loop: the connection is registered. *)
Definition handle_client_enter (c : ws) : M unit :=
  modify (set_clients (fun l => l ++ [c])).

(** One turn of the loop and, when it leaves the loop by [return] or by an
    exception, the [finally] clause. The result tells whether the handler is
    still in its loop. *)
Definition handle_client_turn (c : ws) (now : Z) (raw : option json)
  : M bool :=
  fun st =>
    match handle_message c now raw st with
    | (Ok Continue, st') => (Ok true, st')
    | (_, st') =>
        match remove_client c st' with
        | (_, st'') => (Ok false, st'')
        end
    end.

End Handler.

(** ** The server: connections come, talk and go

    [looping] lists the connections whose handler is in its loop. A frame of
    a connection whose handler has left the loop is never read. A turn of a
    handler is taken as a whole: the other handlers run between two turns,
    not in the middle of one. *)

Inductive input :=
| Connect (c : ws)                                (* a new connection *)
| Frame (c : ws) (now : Z) (raw : option json)    (* its next frame *)
| Lost (c : ws)                                   (* its peer vanishes *)
| Ended (c : ws).                                 (* its frames run out *)

Record server := { mem : state; looping : list ws }.

Definition boot : server := {| mem := initial; looping := [] |}.

Section Server.
Context `{Collaborators}.

(** The handler of [c] is over: the library shuts the connection. *)
Definition leave (c : ws) (st : state) (sv : server) : server :=
  {| mem := set_links <[c := Shut]> st;
     looping := list_remove c (looping sv) |}.

Definition step (sv : server) (i : input) : server :=
  match i with
  | Connect c =>
      match links (mem sv) !! c with
      | None =>
          {| mem := snd (handle_client_enter c
                           (set_links <[c := Open]> (mem sv)));
             looping := looping sv ++ [c] |}
      | Some _ => sv
      end
  | Frame c now raw =>
      if bool_decide (c ∈ looping sv) then
        match handle_client_turn c now raw (mem sv) with
        | (Ok true, st) => {| mem := st; looping := looping sv |}
        | (_, st) => leave c st sv
        end
      else sv
  | Lost c =>
      match links (mem sv) !! c with
      | Some Open =>
          {| mem := set_links <[c := Stale]> (mem sv);
             looping := looping sv |}
      | _ => sv
      end
  | Ended c =>
      if bool_decide (c ∈ looping sv) then
        leave c (snd (remove_client c (mem sv))) sv
      else sv
  end.

Definition run (inputs : list input) : server := foldl step boot inputs.

End Server.

(** ** Sample collaborators and frames, for the examples *)

Module Demo.

Fixpoint contains (s p : str) : bool :=
  startswith s p ||
  match s with
  | [] => false
  | _ :: s' => contains s' p
  end.

Definition scores (toxic : Q) : json :=
  JList [JList [JDict [(py "label", JStr (py "toxic"));
                       (py "score", JNum toxic)];
                JDict [(py "label", JStr (py "insult"));
                       (py "score", JNum (1 # 10))]]].

(** A token is the e-mail address it stands for, and is rejected when it
    is marked as expired; the word list holds
    "darn"; the toxicity model dislikes "dumb" and is unreachable for texts
    that mention "timeout". *)
#[export] Instance services : Collaborators := {|
  verify_oauth2_token := fun token =>
    match token with
    | JStr e =>
        if startswith e (py "expired:") then None
        else Some {| id_email := Some e; id_name := None;
                     id_picture := None |}
    | _ => None
    end;
  contains_profanity := fun text => contains text (py "darn");
  HF_API_KEY := Some (py "hf_demo");
  hf_inference := fun text =>
    if contains text (py "timeout") then None
    else if contains text (py "dumb") then Some (scores (9 # 10))
    else Some (scores (1 # 100));
  chat_completion := fun prompt => inl (py "Sure.")
|}.

(** The same, with no key for the toxicity model. *)
Definition keyless : Collaborators := {|
  verify_oauth2_token := @verify_oauth2_token services;
  contains_profanity := @contains_profanity services;
  HF_API_KEY := None;
  hf_inference := @hf_inference services;
  chat_completion := @chat_completion services
|}.

Definition auth_data (token : string) : list (str * json) :=
  [(py "type", JStr (py "auth")); (py "token", JStr (py token))].

Definition chat_data (content : str) : list (str * json) :=
  [(py "type", JStr (py "chat")); (py "content", JStr content)].

Definition auth (token : string) : option json :=
  Some (JDict (auth_data token)).

Definition chat (content : string) : option json :=
  Some (JDict (chat_data (py content))).

Definition alice : user :=
  {| email := py "alice@x.org"; name := py "alice@x.org"; pic := [] |}.

Definition bob : user :=
  {| email := py "bob@x.org"; name := py "bob@x.org"; pic := [] |}.

(** Alice has signed in on connection 1; connection 2 has only
    connected. *)
Definition lobby : state :=
  mem (run [Connect 1; Frame 1 0 (auth "alice@x.org"); Connect 2]).


(** Two of Alice's messages have been blocked, at seconds 1 and 2. *)
Definition two_strikes : state :=
  mem (run [Connect 1; Frame 1 0 (auth "alice@x.org"); Connect 2;
            Frame 1 1000000 (chat "darn");
            Frame 1 2000000 (chat "oh darn")]).

(** A third ordinary message of Alice has been blocked, at second 3: she is
    banned and her connection is removed. *)
Definition alice_banned : state :=
  mem (run [Connect 1; Frame 1 0 (auth "alice@x.org"); Connect 2;
            Frame 1 1000000 (chat "darn");
            Frame 1 2000000 (chat "oh darn");
            Frame 1 3000000 (chat "darn again")]).

(** Three prompts of Alice for the command [/ai] have been blocked: she is
    banned and her connection is closed, and its handler is still in its
    loop. *)
Definition lingering : server :=
  run [Connect 1; Frame 1 0 (auth "alice@x.org"); Connect 2;
       Frame 1 1000000 (chat "/ai darn");
       Frame 1 2000000 (chat "/ai oh darn");
       Frame 1 3000000 (chat "/ai darn again")].

(** Alice on connection 1, nobody yet on connection 2, Bob on connection 3,
    whose peer has vanished. *)
Definition crowd : state :=
  mem (run [Connect 1; Frame 1 0 (auth "alice@x.org"); Connect 2;
            Connect 3; Frame 3 0 (auth "bob@x.org"); Lost 3]).

(** The peer of connection 1 vanished before it signed in, and the notice
    that Bob joined on connection 2 could not be sent to it: connection 1 is
    out of [clients], while the first frame it had sent is still to be
    read. *)
Definition dropped : server :=
  run [Connect 1; Lost 1; Connect 2; Frame 2 0 (auth "bob@x.org")].

End Demo.

(** * Properties *)

(** ** Vocabulary *)

(** The tables say the same of [c] in both states. *)
Definition same_at (c : ws) (st st' : state) : Prop :=
  dict_lookup c (users st') = dict_lookup c (users st) /\
  unsafe_counts st' !! c = unsafe_counts st !! c /\
  rate_limit_counts st' !! c = rate_limit_counts st !! c /\
  last_message_times st' !! c = last_message_times st !! c /\
  (c ∈ clients st' <-> c ∈ clients st).

(** Every table has forgotten [c]. *)
Definition gone (c : ws) (st : state) : Prop :=
  (c ∉ clients st) /\
  dict_lookup c (users st) = None /\
  unsafe_counts st !! c = None /\
  rate_limit_counts st !! c = None /\
  last_message_times st !! c = None.

(** [e] was added to the trace between [st] and [st']. *)
Definition since (st st' : state) (e : effect) : Prop :=
  exists t, trace st' = trace st ++ t /\ e ∈ t.

(** [st'] comes out of [st] by broadcasts: the ban set is the same; a link
    changes only from [Stale] to [Shut]; the tables are the same for every
    connection whose link has not changed; the trace has grown by frames sent
    to registered connections with an [Open] link; the registry has only
    lost entries. *)
Record evolves (st st' : state) : Prop := {
  ev_banned : banned_emails st' = banned_emails st;
  ev_links : forall c,
    links st' !! c = links st !! c \/
    (links st !! c = Some Stale /\ links st' !! c = Some Shut);
  ev_same : forall c, links st' !! c = links st !! c -> same_at c st st';
  ev_trace : exists t,
    trace st' = trace st ++ t /\
    Forall (fun e => exists c m,
              e = Sent c m /\ links st !! c = Some Open /\ c ∈ clients st) t;
  ev_clients : clients st' `sublist_of` clients st;
  ev_users : users st' `sublist_of` users st
}.

Definition good_broadcast (bc : event -> option ws -> state -> state) : Prop :=
  forall obj ex st, evolves st (bc obj ex st).

Definition good_remove (remove : ws -> state -> state) : Prop :=
  forall c st,
    links st !! c = Some Stale ->
    evolves st (remove c (set_links <[c := Shut]> st)) /\
    links (remove c (set_links <[c := Shut]> st)) !! c = Some Shut.

(** No connection is registered twice and no connection has two entries in
    [users]. *)
Definition wf (st : state) : Prop :=
  NoDup (clients st) /\ NoDup (users st).*1.

(** The presence list went, between [st] and [st'], to every registered
    connection with an [Open] link. *)
Definition notified (st st' : state) : Prop :=
  forall c, c ∈ clients st -> links st !! c = Some Open ->
            exists online, since st st' (Sent c (UserList online)).

(** What a broadcast of nesting depth [n] achieves on the states with at
    most [n] registered connections: a [Stale] link it has [Shut] belongs to a
    connection that is gone, and the presence list has been sent out. *)
Definition removes_down (n : nat)
    (bc : event -> option ws -> state -> state) : Prop :=
  forall obj ex st c,
    wf st -> (length (clients st) <= n)%nat ->
    c ∈ clients st -> links st !! c = Some Stale ->
    links (bc obj ex st) !! c = Some Shut ->
    gone c (bc obj ex st) /\ notified st (bc obj ex st).

Definition removes_one (n : nat) (remove : ws -> state -> state) : Prop :=
  forall c0 st c,
    wf st -> (length (clients st) <= n)%nat ->
    c0 ∈ clients st -> links st !! c0 = Some Stale ->
    c ∈ clients st -> links st !! c = Some Stale ->
    links (remove c0 (set_links <[c0 := Shut]> st)) !! c = Some Shut ->
    gone c (remove c0 (set_links <[c0 := Shut]> st)) /\
    notified st (remove c0 (set_links <[c0 := Shut]> st)).

Definition emit_all (t : list effect) (st : state) : state :=
  {| clients := clients st; users := users st;
     unsafe_counts := unsafe_counts st;
     rate_limit_counts := rate_limit_counts st;
     last_message_times := last_message_times st;
     banned_emails := banned_emails st; links := links st;
     trace := trace st ++ t |}.

(** The connections a broadcast addresses: the registered ones that report
    [open], the excluded one apart. *)
Definition recipients (ex : option ws) (st : state) : list ws :=
  List.filter (fun c => negb (bool_decide (ex = Some c)) && is_open st c)
    (clients st).






(** [st] after a [send] to [c] has raised [ConnectionClosed]: a link whose
    peer had vanished is found shut, and nothing else has changed. *)
Definition hung_up (c : ws) (st : state) : state :=
  match links st !! c with
  | Some Stale => set_links <[c := Shut]> st
  | _ => st
  end.

(** [st] after the connection [c] has been kicked and closed. *)
Definition kicked (c : ws) (notice : str) (st : state) : state :=
  emit (Close c) (set_links <[c := Shut]> (emit (Sent c (Kick notice)) st)).

(** Every registered connection of [st] is in [T]. *)
Definition within (T : ws -> Prop) (st : state) : Prop :=
  forall c, c ∈ clients st -> T c.

(** The computation [m] takes states with the property [P] to states with
    the property [P], however it ends. *)
Definition keeps (P : state -> Prop) {A} (m : M A) : Prop :=
  forall st, P st -> P (snd (m st)).

(** [st] after the three assignments of an accepted [auth] frame. *)
Definition signed_in (c : ws) (u : user) (st : state) : state :=
  set_rate_limit_counts <[c := 0%nat]>
    (set_unsafe_counts <[c := 0%nat]> (set_users (dict_set c u) st)).

(** The tables fit together: no connection is registered twice or has two
    entries in [users], no e-mail is held by two entries of [users], every
    entry of [users] has its two counts, and every registered connection has
    a link. *)
Definition consistent (st : state) : Prop :=
  wf st /\
  NoDup ((email ∘ snd) <$> users st) /\
  (forall c, is_Some (dict_lookup c (users st)) ->
             is_Some (unsafe_counts st !! c) /\
             is_Some (rate_limit_counts st !! c)) /\
  (forall c, c ∈ clients st -> is_Some (links st !! c)).

(** [m] never raises a key error. *)
Definition quiet {A} (m : M A) : Prop :=
  forall st st', m st <> (Raise KeyError, st').

(** ** The moderation pipeline *)

Section ModerationFacts.
Context `{Collaborators}.

(** The pipeline never raises, and all it does to the state is to record
    the request to the toxicity model, when it makes one. *)
Lemma check_hf_toxicity_run (text : str) (st : state) :
  check_hf_toxicity text st =
    if has_key
    then (Ok (hf_verdict (hf_inference text)), emit (HfPost text) st)
    else (Ok (true, py "No moderation API key."), st).
Proof. unfold check_hf_toxicity. by destruct has_key. Qed.

Lemma check_safe_run (text : str) (st : state) :
  exists verdict,
    check_safe text st = (Ok verdict, st) \/
    check_safe text st = (Ok verdict, emit (HfPost text) st).
Proof.
  unfold check_safe. destruct (check_profanity_text text).
  - eexists. by left.
  - rewrite check_hf_toxicity_run. destruct has_key; eexists; eauto.
Qed.

(** A text that reaches the second stage with a key configured is sent to
    the toxicity model, and the trace shows it. *)
Lemma check_safe_posts (text : str) (st : state) :
  check_profanity_text text = false -> has_key = true ->
  trace (snd (check_safe text st)) = trace st ++ [HfPost text].
Proof.
  intros Hp Hk. unfold check_safe. rewrite Hp, check_hf_toxicity_run, Hk.
  reflexivity.
Qed.

Lemma gt_half_num (q : Q) :
  gt_half (JNum q) = Some (negb (Qle_bool q (1 # 2))).
Proof. reflexivity. Qed.

End ModerationFacts.

(** C1. A text in which the word list finds a match is unsafe with the
    reason "Profanity detected", and the state, whose trace would record a
    request to the toxicity model, is left as it was: no request is made. *)
Theorem C1_profanity_short_circuit `{Collaborators} (text : str) (st : state) :
  check_profanity_text text = true ->
  check_safe text st = (Ok (false, py "Profanity detected"), st) /\
  forall t, HfPost t ∈ trace (snd (check_safe text st)) -> HfPost t ∈ trace st.
Proof.
  intros Hp. unfold check_safe. rewrite Hp. split; [reflexivity|].
  intros t Ht. exact Ht.
Qed.

Lemma C1_profanity_short_circuit_witness :
  @check_safe Demo.services (py "well, darn it") initial
    = (Ok (false, py "Profanity detected"), initial) /\
  forall t, HfPost t ∈ trace (snd (@check_safe Demo.services (py "well, darn it") initial)) ->
            HfPost t ∈ trace initial.
Proof.
  apply (@C1_profanity_short_circuit Demo.services (py "well, darn it") initial).
  reflexivity.
Defined.

(** C6. A text with no match in the word list is safe whenever the toxicity
    model cannot be consulted: no key is configured, the request or the
    decoding of its answer raises, the answer is not a list, or its items
    cannot be read. *)
Theorem C6_fail_open `{Collaborators} (text : str) (st : state) :
  check_profanity_text text = false ->
  has_key = false \/
  hf_inference text = None \/
  (exists r, hf_inference text = Some r /\ forall l, r <> JList l) \/
  (exists r, hf_inference text = Some r /\ toxic_score_of r = None) ->
  exists reason st', check_safe text st = (Ok (true, reason), st').
Proof.
  intros Hp Hu. unfold check_safe. rewrite Hp, check_hf_toxicity_run.
  destruct has_key; [|by eauto].
  destruct Hu as [Hk|[Hn|[(r & Hr & Hl)|(r & Hr & Hs)]]]; [done|..].
  - rewrite Hn. simpl. eauto.
  - rewrite Hr. destruct r; try (simpl; by eauto). by destruct (Hl l).
  - rewrite Hr. simpl. rewrite Hs. eauto.
Qed.

Lemma C6_fail_open_witness :
  exists reason st',
    @check_safe Demo.services (py "request timeout") initial = (Ok (true, reason), st').
Proof.
  apply (@C6_fail_open Demo.services (py "request timeout") initial).
  - reflexivity.
  - right; left. reflexivity.
Defined.

(** C7, as stated, fails: the reason the program gives for a toxic text does
    not begin with "Toxicity flagged | score=". *)
Lemma C7_reason_counterexample :
  @check_profanity_text Demo.services (py "you are dumb") = false /\
  @hf_inference Demo.services (py "you are dumb") = Some (Demo.scores (9 # 10)) /\
  toxic_score_of (Demo.scores (9 # 10)) = Some (JNum (9 # 10)) /\
  exists reason,
    fst (@check_safe Demo.services (py "you are dumb") initial) = Ok (false, reason) /\
    reason = py "Toxicity flagged | Score: (0.90) | Blocked by Hugging Face Toxicity" /\
    startswith reason (py "Toxicity flagged | score=") = false.
Proof.
  split; [reflexivity|]. split; [reflexivity|]. split; [reflexivity|].
  eexists. split; [vm_compute; reflexivity|]. split; reflexivity.
Qed.

(** C7, amended. For a text with no match in the word list, a key configured
    and an answer of the toxicity model that carries the score [s] for the
    label "toxic".
    - [s] is a float of value [q] (a float that is a number is below
      [2 ** 1024]): above one half the text is unsafe, with the reason
      "Toxicity flagged | Score: (<q to two decimals>) | Blocked by Hugging
      Face Toxicity"; at most one half the text is safe.
    - [s] is an integer [z]: at most zero the text is safe; from one on the
      reason prints [float(z)], and the text is unsafe when that conversion
      succeeds, and let through as "HF unavailable" when it raises. *)
Theorem C7_toxicity_threshold `{Collaborators} (text : str) (r s : json)
    (st : state) :
  check_profanity_text text = false ->
  has_key = true ->
  hf_inference text = Some r ->
  toxic_score_of r = Some s ->
  (forall q : Q, s = JNum q ->
     ((1 # 2 < q)%Q -> (q < inject_Z (2 ^ 1024))%Q ->
      check_safe text st =
        (Ok (false, py "Toxicity flagged | Score: (" ++ format_2f q ++
                    py ") | Blocked by Hugging Face Toxicity"),
         emit (HfPost text) st)) /\
     ((q <= 1 # 2)%Q ->
      check_safe text st = (Ok (true, py "OK"), emit (HfPost text) st))) /\
  (forall z : Z, s = JInt z ->
     (forall v : Z, 1 <= z -> float_of_int z = Some v ->
      check_safe text st =
        (Ok (false, py "Toxicity flagged | Score: (" ++
                    format_2f (inject_Z v) ++
                    py ") | Blocked by Hugging Face Toxicity"),
         emit (HfPost text) st)) /\
     (1 <= z -> float_of_int z = None ->
      check_safe text st =
        (Ok (true, py "HF unavailable"), emit (HfPost text) st)) /\
     (z <= 0 ->
      check_safe text st = (Ok (true, py "OK"), emit (HfPost text) st))).
Proof.
  intros Hp Hk Hr Hs. unfold check_safe.
  rewrite Hp, check_hf_toxicity_run, Hk, Hr. unfold hf_verdict.
  rewrite Hs. split.
  - intros q ->. rewrite gt_half_num. split.
    + intros Hq _. destruct (Qle_bool q (1 # 2)) eqn:Hle; [|reflexivity].
      apply Qle_bool_iff in Hle. by apply Qlt_not_le in Hq.
    + intros Hq. apply Qle_bool_iff in Hq. rewrite Hq. reflexivity.
  - intros z ->. cbn [gt_half]. unfold flagged_reason. cbn [format_score].
    split; [|split].
    + intros v Hz Hv. apply Z.leb_le in Hz. rewrite Hz, Hv. reflexivity.
    + intros Hz Hv. apply Z.leb_le in Hz. rewrite Hz, Hv. reflexivity.
    + intros Hz. destruct (1 <=? z) eqn:Hle; [|reflexivity].
      apply Z.leb_le in Hle. lia.
Qed.

Lemma C7_toxicity_threshold_witness :
  @check_safe Demo.services (py "you are dumb") initial =
    (Ok (false, py "Toxicity flagged | Score: (" ++ format_2f (9 # 10) ++
                py ") | Blocked by Hugging Face Toxicity"),
     emit (HfPost (py "you are dumb")) initial).
Proof.
  destruct (@C7_toxicity_threshold Demo.services (py "you are dumb")
              (Demo.scores (9 # 10)) (JNum (9 # 10)) initial)
    as [Hfloat _]; [reflexivity..|].
  destruct (Hfloat (9 # 10) eq_refl) as [Habove _].
  apply Habove; reflexivity.
Defined.

(** The scores that are not floats between zero and one. An integer is
    printed as the float it converts to, [2 ** 53 + 1] as [2 ** 53]; an
    integer beyond the range of a float compares above one half and then
    makes the formatting of the reason raise, so that the text is let
    through; an infinite score is printed as "inf". *)
Lemma integer_scores :
  let answer s := Some (JList [JDict [(py "label", JStr (py "toxic"));
                                      (py "score", s)]]) in
  hf_verdict (answer (JInt (2 ^ 53 + 1))) =
    (false, py "Toxicity flagged | Score: (9007199254740992.00) | Blocked by Hugging Face Toxicity") /\
  hf_verdict (answer (JInt (10 ^ 400))) = (true, py "HF unavailable") /\
  hf_verdict (answer (JInf false)) =
    (false, py "Toxicity flagged | Score: (inf) | Blocked by Hugging Face Toxicity") /\
  hf_verdict (answer JNaN) = (true, py "OK").
Proof. vm_compute. repeat split. Qed.

(** ** Lists and dictionaries *)

Lemma list_remove_sublist (c : ws) (l : list ws) :
  list_remove c l `sublist_of` l.
Proof.
  induction l as [|y l IH]; simpl; [done|].
  destruct (decide (y = c)); [by apply sublist_cons | by apply sublist_skip].
Qed.

Lemma elem_of_list_remove_ne (c c' : ws) (l : list ws) :
  c' <> c -> c' ∈ list_remove c l <-> c' ∈ l.
Proof.
  intros Hne. induction l as [|y l IH]; simpl; [done|].
  destruct (decide (y = c)) as [->|]; set_solver.
Qed.

Lemma list_remove_NoDup (c : ws) (l : list ws) :
  NoDup l -> c ∉ list_remove c l.
Proof.
  induction 1 as [|y l Hy Hl IH]; simpl; [set_solver|].
  destruct (decide (y = c)) as [->|]; [done|]. set_solver.
Qed.

Lemma length_list_remove (c : ws) (l : list ws) :
  c ∈ l -> S (length (list_remove c l)) = length l.
Proof.
  induction l as [|y l IH]; simpl; [by intros ?%elem_of_nil|].
  destruct (decide (y = c)) as [->|Hne]; [done|].
  intros [?|?]%elem_of_cons; [congruence|]. simpl. by rewrite IH.
Qed.

Lemma dict_del_sublist {V} (c : ws) (d : list (ws * V)) :
  dict_del c d `sublist_of` d.
Proof.
  induction d as [|[k v] d IH]; simpl; [done|].
  destruct (decide (k = c)); [by apply sublist_cons | by apply sublist_skip].
Qed.

Lemma dict_lookup_del_ne {V} (c c' : ws) (d : list (ws * V)) :
  c' <> c -> dict_lookup c' (dict_del c d) = dict_lookup c' d.
Proof.
  intros Hne. induction d as [|[k v] d IH]; simpl; [done|].
  destruct (decide (k = c)) as [->|]; simpl.
  - by destruct (decide (c = c')); [congruence|].
  - by rewrite IH.
Qed.

Lemma dict_lookup_None {V} (c : ws) (d : list (ws * V)) :
  dict_lookup c d = None <-> c ∉ d.*1.
Proof.
  induction d as [|[k v] d IH]; simpl; [set_solver|].
  destruct (decide (k = c)) as [->|]; set_solver.
Qed.

Lemma dict_lookup_del_eq {V} (c : ws) (d : list (ws * V)) :
  NoDup d.*1 -> dict_lookup c (dict_del c d) = None.
Proof.
  induction d as [|[k v] d IH]; simpl; [done|].
  intros [Hk Hd]%NoDup_cons. destruct (decide (k = c)) as [->|]; simpl.
  - by apply dict_lookup_None.
  - destruct (decide (k = c)); [done|]. by apply IH.
Qed.

(** ** What a broadcast may change *)

Lemma same_at_refl c st : same_at c st st.
Proof. by repeat split. Qed.

Lemma same_at_trans c st1 st2 st3 :
  same_at c st1 st2 -> same_at c st2 st3 -> same_at c st1 st3.
Proof.
  intros (?&?&?&?&?) (?&?&?&?&?). repeat split; try congruence; tauto.
Qed.

Lemma evolves_refl st : evolves st st.
Proof.
  split; auto using same_at_refl.
  exists []. by rewrite app_nil_r.
Qed.

Lemma evolves_open st st' c :
  evolves st st' -> links st !! c = Some Open ->
  links st' !! c = Some Open /\ same_at c st st'.
Proof.
  intros Hev Ho. destruct (ev_links _ _ Hev c) as [He|[Hs _]]; [|congruence].
  split; [congruence|]. by apply ev_same.
Qed.

Lemma evolves_open_inv st st' c :
  evolves st st' -> links st' !! c = Some Open -> links st !! c = Some Open.
Proof.
  intros Hev Ho. destruct (ev_links _ _ Hev c) as [He|[_ Hs]]; congruence.
Qed.

Lemma evolves_trans st1 st2 st3 :
  evolves st1 st2 -> evolves st2 st3 -> evolves st1 st3.
Proof.
  intros H12 H23. split.
  - rewrite (ev_banned _ _ H23). apply (ev_banned _ _ H12).
  - intros c. destruct (ev_links _ _ H12 c) as [E1|[E1 E1']],
      (ev_links _ _ H23 c) as [E2|[E2 E2']]; try (left; congruence);
      try (right; split; congruence).
  - intros c Hc.
    destruct (ev_links _ _ H12 c) as [E1|[E1 E1']],
      (ev_links _ _ H23 c) as [E2|[E2 E2']]; try congruence.
    eapply same_at_trans; by apply ev_same.
  - destruct (ev_trace _ _ H12) as (t1 & Ht1 & F1),
      (ev_trace _ _ H23) as (t2 & Ht2 & F2).
    exists (t1 ++ t2). split; [by rewrite Ht2, Ht1, app_assoc|].
    apply Forall_app. split; [done|].
    eapply Forall_impl; [exact F2|]. intros e (c & m & -> & Ho & Hc).
    exists c, m. split; [done|]. split.
    + by eapply evolves_open_inv.
    + eapply elem_of_sublist; [done|apply (ev_clients _ _ H12)].
  - etrans; [apply (ev_clients _ _ H23)|apply (ev_clients _ _ H12)].
  - etrans; [apply (ev_users _ _ H23)|apply (ev_users _ _ H12)].
Qed.

Lemma evolves_shut_stays st st' c :
  evolves st st' -> links st !! c = Some Shut -> links st' !! c = Some Shut.
Proof.
  intros Hev Hs. destruct (ev_links _ _ Hev c) as [He|[? _]]; congruence.
Qed.

Lemma evolves_shut c st :
  links st !! c = Some Stale -> evolves st (set_links <[c := Shut]> st).
Proof.
  intros Hc. split; simpl.
  - done.
  - intros c'. destruct (decide (c = c')) as [<-|Hne].
    + right. by rewrite lookup_insert_eq.
    + left. by rewrite lookup_insert_ne.
  - intros c'. destruct (decide (c = c')) as [<-|Hne].
    + rewrite lookup_insert_eq. congruence.
    + intros _. by repeat split.
  - exists []. by rewrite app_nil_r.
  - done.
  - done.
Qed.

Lemma same_at_forget c c' f st :
  c' <> c -> same_at c' st (forget c (set_links f st)).
Proof.
  intros Hne. unfold forget. repeat split; simpl.
  - by apply dict_lookup_del_ne.
  - by rewrite lookup_delete_ne.
  - by rewrite lookup_delete_ne.
  - by rewrite lookup_delete_ne.
  - by apply elem_of_list_remove_ne.
  - by apply elem_of_list_remove_ne.
Qed.

Lemma evolves_shut_forget c st :
  links st !! c = Some Stale ->
  evolves st (forget c (set_links <[c := Shut]> st)).
Proof.
  intros Hc. split; simpl.
  - done.
  - intros c'. destruct (decide (c = c')) as [<-|Hne].
    + right. by rewrite lookup_insert_eq.
    + left. by rewrite lookup_insert_ne.
  - intros c'. destruct (decide (c = c')) as [<-|Hne].
    + rewrite lookup_insert_eq. congruence.
    + intros _. by apply same_at_forget.
  - exists []. by rewrite app_nil_r.
  - apply list_remove_sublist.
  - apply dict_del_sublist.
Qed.

Lemma remove_evolves bc :
  good_broadcast bc -> good_remove (remove_client_with bc).
Proof.
  intros Hbc c st Hc. unfold remove_client_with.
  destruct (decide _) as [Hin|Hin].
  - split.
    + eapply evolves_trans; [|apply Hbc].
      destruct (dict_lookup c _).
      * eapply evolves_trans; [|apply Hbc]. by apply evolves_shut_forget.
      * by apply evolves_shut_forget.
    + eapply evolves_shut_stays; [apply Hbc|].
      destruct (dict_lookup c _).
      * eapply evolves_shut_stays; [apply Hbc|]. simpl.
        by rewrite lookup_insert_eq.
      * simpl. by rewrite lookup_insert_eq.
  - split; [by apply evolves_shut|]. simpl. by rewrite lookup_insert_eq.
Qed.

Lemma remove_nothing_good : good_remove (fun _ st' => st').
Proof.
  intros c st Hc. split; [by apply evolves_shut|].
  simpl. by rewrite lookup_insert_eq.
Qed.

Lemma send_cases c obj st :
  (links st !! c = Some Open /\ send c obj st = (Ok tt, emit (Sent c obj) st)) \/
  (links st !! c = Some Stale /\
   send c obj st = (Raise ConnectionClosed, set_links <[c := Shut]> st)) \/
  (is_open st c = false /\ send c obj st = (Raise ConnectionClosed, st)).
Proof.
  unfold send, is_open. destruct (links st !! c) as [[]|]; auto.
Qed.

Lemma evolves_emit_sent c obj st :
  links st !! c = Some Open -> c ∈ clients st ->
  evolves st (emit (Sent c obj) st).
Proof.
  intros Ho Hc. split; simpl.
  - done.
  - by left.
  - intros c' _. by repeat split.
  - exists [Sent c obj]. split; [done|]. repeat constructor. eauto.
  - done.
  - done.
Qed.

Lemma deliver_evolves remove obj ex st c :
  good_remove remove ->
  (links st !! c = Some Open -> c ∈ clients st) ->
  evolves st (deliver remove obj ex st c).
Proof.
  intros Hrm Hc. unfold deliver.
  destruct (negb _ && is_open st c) eqn:Hg; [|apply evolves_refl].
  apply andb_prop in Hg as [_ Hopen].
  destruct (send_cases c obj st) as [[Ho ->]|[[Hs ->]|[Hn _]]].
  - apply evolves_emit_sent; auto.
  - by apply Hrm.
  - congruence.
Qed.

Lemma evolves_open_in s0 s c :
  evolves s0 s -> c ∈ clients s0 -> links s !! c = Some Open -> c ∈ clients s.
Proof.
  intros Hev Hc Ho. apply (evolves_open_inv _ _ _ Hev) in Ho as Ho0.
  destruct (evolves_open _ _ _ Hev Ho0) as [_ (_&_&_&_&Hin)]. by apply Hin.
Qed.

Lemma foldl_deliver_evolves remove obj ex l :
  good_remove remove ->
  forall s0 s,
    evolves s0 s -> (forall c, c ∈ l -> c ∈ clients s0) ->
    evolves s (foldl (deliver remove obj ex) s l).
Proof.
  intros Hrm. induction l as [|c l IH]; intros s0 s Hev Hl; simpl;
    [apply evolves_refl|].
  assert (evolves s (deliver remove obj ex s c)) as Hstep.
  { apply deliver_evolves; [done|]. intros Ho.
    eapply evolves_open_in; [done| |done]. apply Hl. set_solver. }
  eapply evolves_trans; [exact Hstep|].
  apply (IH s0); [by eapply evolves_trans|set_solver].
Qed.

Lemma broadcast_evolves depth : good_broadcast (broadcast_json_depth depth).
Proof.
  induction depth as [|d IH]; intros obj ex st.
  - apply (foldl_deliver_evolves _ _ _ _ remove_nothing_good st);
      [apply evolves_refl|done].
  - apply (foldl_deliver_evolves _ _ _ _ (remove_evolves _ IH) st);
      [apply evolves_refl|done].
Qed.

Lemma remove_depth_good depth :
  good_remove
    match depth with
    | O => fun _ st' => st'
    | S depth' => remove_client_with (broadcast_json_depth depth')
    end.
Proof.
  destruct depth; [apply remove_nothing_good|].
  apply remove_evolves, broadcast_evolves.
Qed.

(** ** Who receives a broadcast *)

Lemma since_mono s0 s1 s2 s3 e :
  evolves s0 s1 -> since s1 s2 e -> evolves s2 s3 -> since s0 s3 e.
Proof.
  intros H01 (t & Ht & He) H23.
  destruct (ev_trace _ _ H01) as (t0 & Ht0 & _),
    (ev_trace _ _ H23) as (t2 & Ht2 & _).
  exists (t0 ++ t ++ t2). split.
  - by rewrite Ht2, Ht, Ht0, <- !app_assoc.
  - set_solver.
Qed.

Lemma since_emit e st : since st (emit e st) e.
Proof. exists [e]. split; [done|set_solver]. Qed.

Lemma deliver_open remove obj ex st c :
  links st !! c = Some Open -> ex <> Some c ->
  deliver remove obj ex st c = emit (Sent c obj) st.
Proof.
  intros Ho Hex. unfold deliver, is_open, send. rewrite Ho.
  by rewrite bool_decide_eq_false_2.
Qed.

(** Every registered connection with an [Open] link, the excluded one apart,
    is sent the object, whatever happens to the others. *)
Lemma foldl_deliver_sends remove obj ex l :
  good_remove remove ->
  forall s0 s c,
    evolves s0 s -> (forall c', c' ∈ l -> c' ∈ clients s0) ->
    c ∈ l -> links s !! c = Some Open -> ex <> Some c ->
    since s (foldl (deliver remove obj ex) s l) (Sent c obj).
Proof.
  intros Hrm. induction l as [|c0 l IH]; intros s0 s c Hev Hl Hc Ho Hex; simpl;
    [by apply elem_of_nil in Hc|].
  assert (evolves s (deliver remove obj ex s c0)) as Hstep.
  { apply deliver_evolves; [done|]. intros Ho0.
    eapply evolves_open_in; [done| |done]. apply Hl. set_solver. }
  destruct (decide (c0 = c)) as [->|Hne].
  - rewrite deliver_open in * by done.
    eapply (since_mono s s); [apply evolves_refl|apply since_emit|].
    apply (foldl_deliver_evolves _ _ _ _ Hrm s0); [|set_solver].
    by eapply evolves_trans.
  - eapply since_mono; [exact Hstep| |apply evolves_refl].
    apply (IH s0); [by eapply evolves_trans|set_solver|set_solver| |done].
    by apply (evolves_open _ _ _ Hstep).
Qed.

Lemma broadcast_sends depth obj ex st c :
  c ∈ clients st -> links st !! c = Some Open -> ex <> Some c ->
  since st (broadcast_json_depth depth obj ex st) (Sent c obj).
Proof.
  intros Hc Ho Hex. destruct depth; simpl.
  - by apply (foldl_deliver_sends _ _ _ _ remove_nothing_good st);
      [apply evolves_refl|..].
  - by apply (foldl_deliver_sends _ _ _ _
                (remove_evolves _ (broadcast_evolves depth)) st);
      [apply evolves_refl|..].
Qed.

(** A registered connection with a [Stale] link, the excluded one apart, has
    its link [Shut] by the broadcast. *)
Lemma foldl_deliver_shuts remove obj ex l :
  good_remove remove ->
  forall s0 s c,
    evolves s0 s -> (forall c', c' ∈ l -> c' ∈ clients s0) ->
    c ∈ l -> ex <> Some c ->
    links s !! c = Some Stale \/ links s !! c = Some Shut ->
    links (foldl (deliver remove obj ex) s l) !! c = Some Shut.
Proof.
  intros Hrm. induction l as [|c0 l IH]; intros s0 s c Hev Hl Hc Hex Hlk; simpl;
    [by apply elem_of_nil in Hc|].
  assert (evolves s (deliver remove obj ex s c0)) as Hstep.
  { apply deliver_evolves; [done|]. intros Ho0.
    eapply evolves_open_in; [done| |done]. apply Hl. set_solver. }
  assert (evolves (deliver remove obj ex s c0)
            (foldl (deliver remove obj ex) (deliver remove obj ex s c0) l))
    as Hrest.
  { apply (foldl_deliver_evolves _ _ _ _ Hrm s0); [|set_solver].
    by eapply evolves_trans. }
  destruct Hlk as [Hst|Hsh].
  - destruct (decide (c0 = c)) as [->|Hne].
    + eapply evolves_shut_stays; [exact Hrest|].
      unfold deliver, is_open, send. rewrite Hst.
      rewrite bool_decide_eq_false_2 by done. simpl. by apply Hrm.
    + apply (IH s0); [by eapply evolves_trans|set_solver|set_solver|done|].
      destruct (ev_links _ _ Hstep c) as [He|[_ He]]; [left|right]; congruence.
  - eapply evolves_shut_stays; [exact Hrest|].
    by eapply evolves_shut_stays.
Qed.

(** ** Removal of the connections that fail *)

Lemma wf_evolves st st' : evolves st st' -> wf st -> wf st'.
Proof.
  intros Hev [Hc Hu]. split.
  - exact (sublist_NoDup _ _ Hc (ev_clients _ _ Hev)).
  - refine (sublist_NoDup _ _ Hu _). apply fmap_sublist, (ev_users _ _ Hev).
Qed.

Lemma length_evolves st st' :
  evolves st st' -> (length (clients st') <= length (clients st))%nat.
Proof. intros Hev. apply sublist_length, (ev_clients _ _ Hev). Qed.

Lemma gone_evolves st st' c :
  evolves st st' -> links st !! c = Some Shut -> gone c st -> gone c st'.
Proof.
  intros Hev Hs (Hc & Hu & H1 & H2 & H3).
  destruct (ev_same _ _ Hev c) as (Hu' & H1' & H2' & H3' & Hc').
  { destruct (ev_links _ _ Hev c) as [He|[? _]]; congruence. }
  repeat split; try congruence. tauto.
Qed.

Lemma notified_mono s0 s1 s2 s3 :
  evolves s0 s1 -> notified s1 s2 -> evolves s2 s3 -> notified s0 s3.
Proof.
  intros H01 Hn H23 c Hc Ho.
  destruct (evolves_open _ _ _ H01 Ho) as [Ho1 (_&_&_&_&Hin)].
  destruct (Hn c) as [online Hs]; [tauto|done|].
  exists online. by eapply since_mono.
Qed.

Lemma gone_forget c st : wf st -> gone c (forget c st).
Proof.
  intros [Hc Hu]. unfold forget. repeat split; simpl.
  - by apply list_remove_NoDup.
  - by apply dict_lookup_del_eq.
  - apply lookup_delete_eq.
  - apply lookup_delete_eq.
  - apply lookup_delete_eq.
Qed.

Lemma removes_one_O remove : removes_one 0 remove.
Proof.
  intros c0 st c _ Hlen Hc0. destruct (clients st); simpl in *; [|lia].
  by apply elem_of_nil in Hc0.
Qed.

Lemma removes_one_S n :
  removes_down n (broadcast_json_depth n) ->
  removes_one (S n) (remove_client_with (broadcast_json_depth n)).
Proof.
  intros IH c0 st c Hwf Hlen Hc0 Hs0 Hc Hs.
  unfold remove_client_with. simpl.
  destruct (decide _) as [_|]; [|done].
  set (s2 := forget c0 (set_links <[c0:=Shut]> st)).
  set (s3 := match dict_lookup c0 (users st) with
             | Some u =>
                 broadcast_json_depth n
                   (System (name u ++ py " left the chat.")) None s2
             | None => s2
             end).
  set (s4 := broadcast_json_depth n (UserList (users s3).*2) None s3).
  assert (evolves st s2) as H02 by by apply evolves_shut_forget.
  assert (evolves s2 s3) as H23.
  { unfold s3. destruct (dict_lookup _ _);
      [apply broadcast_evolves|apply evolves_refl]. }
  assert (evolves s3 s4) as H34 by apply broadcast_evolves.
  assert (wf s2) as Hwf2 by by eapply wf_evolves.
  assert (wf s3) as Hwf3 by by eapply wf_evolves.
  assert (length (clients s2) <= n)%nat as Hlen2.
  { unfold s2, forget. simpl.
    pose proof (length_list_remove c0 (clients st) Hc0). lia. }
  assert (length (clients s3) <= n)%nat as Hlen3.
  { pose proof (length_evolves _ _ H23). lia. }
  assert (notified s3 s4) as Hn34.
  { intros c' Hc' Ho'. eexists. by apply broadcast_sends. }
  intros Hsh. destruct (decide (c = c0)) as [->|Hne].
  - split.
    + eapply gone_evolves; [exact H34| |].
      * eapply evolves_shut_stays; [exact H23|].
        unfold s2. simpl. by rewrite lookup_insert_eq.
      * eapply gone_evolves; [exact H23| |].
        -- unfold s2. simpl. by rewrite lookup_insert_eq.
        -- by apply (gone_forget c0 (set_links <[c0:=Shut]> st)).
    + eapply notified_mono; [|exact Hn34|apply evolves_refl].
      by eapply evolves_trans.
  - assert (links s2 !! c = Some Stale) as Hs2.
    { unfold s2. simpl. by rewrite lookup_insert_ne. }
    assert (c ∈ clients s2) as Hc2.
    { unfold s2, forget. simpl. by apply elem_of_list_remove_ne. }
    destruct (ev_links _ _ H23 c) as [He|[_ Hs3]].
    + (* still stale after the notice: the presence broadcast shut it *)
      assert (links s3 !! c = Some Stale) as Hs3 by congruence.
      assert (c ∈ clients s3) as Hc3.
      { by apply (ev_same _ _ H23 c He). }
      destruct (IH (UserList (users s3).*2) None s3 c) as [Hg Hn]; try done.
      split; [done|].
      eapply notified_mono; [|exact Hn|apply evolves_refl].
      by eapply evolves_trans.
    + (* shut by the notice *)
      unfold s3 in Hs3, H23 |- *.
      destruct (dict_lookup c0 (users st)) as [u|] eqn:Hu; [|congruence].
      destruct (IH (System (name u ++ py " left the chat.")) None s2 c)
        as [Hg Hn]; try done.
      split.
      * eapply gone_evolves; [exact H34|done|done].
      * eapply notified_mono; [exact H02|exact Hn|exact H34].
Qed.

Lemma deliver_cases remove obj ex st c :
  deliver remove obj ex st c = st \/
  (links st !! c = Some Open /\ deliver remove obj ex st c = emit (Sent c obj) st) \/
  (links st !! c = Some Stale /\ ex <> Some c /\
   deliver remove obj ex st c = remove c (set_links <[c := Shut]> st)).
Proof.
  unfold deliver. destruct (bool_decide (ex = Some c)) eqn:Hex; [by left|].
  apply bool_decide_eq_false in Hex. simpl. unfold is_open, send.
  destruct (links st !! c) as [[]|]; auto.
Qed.

Lemma foldl_deliver_removes n remove obj ex l :
  good_remove remove -> removes_one n remove ->
  forall s0 s,
    wf s0 -> (length (clients s0) <= n)%nat ->
    evolves s0 s -> (forall c', c' ∈ l -> c' ∈ clients s0) ->
    (forall c, c ∈ clients s0 -> links s0 !! c = Some Stale ->
               links s !! c = Some Shut -> gone c s /\ notified s0 s) ->
    forall c, c ∈ clients s0 -> links s0 !! c = Some Stale ->
      links (foldl (deliver remove obj ex) s l) !! c = Some Shut ->
      gone c (foldl (deliver remove obj ex) s l) /\
      notified s0 (foldl (deliver remove obj ex) s l).
Proof.
  intros Hrm Hone. induction l as [|c0 l IH];
    intros s0 s Hwf Hlen Hev Hl Hinv; simpl; [done|].
  assert (c0 ∈ clients s0) as Hc0 by (apply Hl; set_solver).
  assert (evolves s (deliver remove obj ex s c0)) as Hstep.
  { apply deliver_evolves; [done|]. intros Ho0.
    by eapply evolves_open_in. }
  apply (IH s0); [done|done|by eapply evolves_trans|set_solver|].
  intros c Hc Hs Hsh.
  destruct (ev_links _ _ Hstep c) as [He|[Hst _]].
  - destruct (Hinv c) as [Hg Hn]; [done|done|congruence|]. split.
    + eapply gone_evolves; [exact Hstep|congruence|done].
    + eapply notified_mono; [apply evolves_refl|exact Hn|exact Hstep].
  - assert (forall x, x ∈ clients s0 -> links s !! x = Some Stale ->
                      x ∈ clients s) as Hin.
    { intros x Hx Hxs.
      destruct (ev_links _ _ Hev x) as [Hex|[_ ?]]; [|congruence].
      by apply (ev_same _ _ Hev x Hex). }
    destruct (deliver_cases remove obj ex s c0) as [E|[[_ E]|(Hs0 & _ & E)]].
    + rewrite E in Hsh. congruence.
    + rewrite E in Hsh. simpl in Hsh. congruence.
    + rewrite E in *.
      destruct (Hone c0 s c) as [Hg Hn]; auto.
      * by eapply wf_evolves.
      * pose proof (length_evolves _ _ Hev). lia.
      * split; [done|].
        eapply notified_mono; [exact Hev|exact Hn|apply evolves_refl].
Qed.

Lemma broadcast_removes n : removes_down n (broadcast_json_depth n).
Proof.
  induction n as [|n IH]; intros obj ex st c Hwf Hlen Hc Hs; simpl.
  - apply (foldl_deliver_removes 0 _ _ _ _ remove_nothing_good
             (removes_one_O _) st); auto using evolves_refl.
    intros x _ Hx Hx'. congruence.
  - apply (foldl_deliver_removes (S n) _ _ _ _
             (remove_evolves _ (broadcast_evolves n))
             (removes_one_S n IH) st); auto using evolves_refl.
    intros x _ Hx Hx'. congruence.
Qed.

(** ** Depth *)

(** Two depths that are both at least the number of registered connections
    give the same broadcast: the bound of [broadcast_json_depth] is never
    reached from [broadcast_json] and [remove_client]. *)
Lemma foldl_deliver_depth remove1 remove2 obj ex l :
  good_remove remove1 ->
  forall s0 s,
    evolves s0 s -> (forall c', c' ∈ l -> c' ∈ clients s0) ->
    (forall c s', evolves s0 s' ->
                  remove1 c (set_links <[c := Shut]> s')
                  = remove2 c (set_links <[c := Shut]> s')) ->
    foldl (deliver remove1 obj ex) s l = foldl (deliver remove2 obj ex) s l.
Proof.
  intros Hrm. induction l as [|c0 l IH]; intros s0 s Hev Hl Heq; simpl; [done|].
  assert (c0 ∈ clients s0) as Hc0 by (apply Hl; set_solver).
  assert (deliver remove1 obj ex s c0 = deliver remove2 obj ex s c0) as <-.
  { unfold deliver. destruct (negb _ && is_open s c0) eqn:Hg; [|done].
    apply andb_prop in Hg as [_ Hopen].
    destruct (send_cases c0 obj s) as [[_ ->]|[[_ ->]|[Hn _]]];
      [done|by apply Heq|congruence]. }
  apply (IH s0); [|set_solver|done].
  eapply evolves_trans; [done|]. apply deliver_evolves; [done|].
  intros Ho. by eapply evolves_open_in.
Qed.

Lemma broadcast_depth_enough n :
  forall d1 d2 obj ex st,
    (length (clients st) <= n)%nat -> (n <= d1)%nat -> (n <= d2)%nat ->
    broadcast_json_depth d1 obj ex st = broadcast_json_depth d2 obj ex st.
Proof.
  induction n as [|n IH]; intros d1 d2 obj ex st Hlen H1 H2.
  - destruct (clients st) eqn:Hcl; simpl in Hlen; [|lia].
    destruct d1, d2; simpl; by rewrite Hcl.
  - destruct d1 as [|d1]; [lia|]. destruct d2 as [|d2]; [lia|]. simpl.
    apply (foldl_deliver_depth _ _ _ _ _
             (remove_evolves _ (broadcast_evolves d1)) st);
      [apply evolves_refl|done|].
    intros c s' Hev. unfold remove_client_with.
    destruct (decide _) as [Hin|]; [|done]. simpl in Hin.
    set (s2 := forget c _).
    assert (length (clients s2) <= n)%nat as Hlen2.
    { unfold s2, forget. simpl.
      pose proof (length_list_remove c (clients s') Hin).
      pose proof (length_evolves _ _ Hev). lia. }
    assert (forall o, (length (clients (broadcast_json_depth d1 o None s2))
                       <= n)%nat) as Hlen3.
    { intros o. pose proof (length_evolves _ _ (broadcast_evolves d1 o None s2)).
      lia. }
    destruct (dict_lookup c _) as [u|].
    + rewrite <- (IH d1 d2 _ None s2) by lia. apply IH; [apply Hlen3|lia|lia].
    + apply IH; lia.
Qed.

(** ** A broadcast in which no send fails *)

Lemma emit_all_nil st : emit_all [] st = st.
Proof. destruct st. unfold emit_all. simpl. by rewrite app_nil_r. Qed.

Lemma emit_emit_all e t st : emit e (emit_all t st) = emit_all (t ++ [e]) st.
Proof. unfold emit, emit_all. simpl. by rewrite app_assoc. Qed.

Lemma foldl_deliver_healthy remove obj ex st l :
  (forall c, c ∈ l -> links st !! c <> Some Stale) ->
  forall t,
    foldl (deliver remove obj ex) (emit_all t st) l =
    emit_all
      (t ++ ((fun c => Sent c obj) <$>
         List.filter (fun c => negb (bool_decide (ex = Some c)) && is_open st c)
           l)) st.
Proof.
  induction l as [|c l IH]; intros Hl t; simpl; [by rewrite app_nil_r|].
  assert (links st !! c <> Some Stale) as Hc by (apply Hl; set_solver).
  unfold deliver at 2. unfold is_open at 1. simpl. fold (is_open st c).
  destruct (negb _ && is_open st c) eqn:Hg.
  - apply andb_prop in Hg as [_ Hopen]. unfold is_open in Hopen.
    unfold send. simpl.
    destruct (links st !! c) as [[]|]; try done.
    rewrite emit_emit_all, IH by set_solver. simpl.
    by rewrite <- app_assoc.
  - apply IH. set_solver.
Qed.

Lemma broadcast_healthy depth obj ex st :
  (forall c, c ∈ clients st -> links st !! c <> Some Stale) ->
  broadcast_json_depth depth obj ex st =
  emit_all ((fun c => Sent c obj) <$> recipients ex st) st.
Proof.
  intros Hl. unfold recipients.
  rewrite <- (app_nil_l (_ <$> _)).
  rewrite <- (foldl_deliver_healthy
                match depth with
                | O => fun _ st' => st'
                | S depth' => remove_client_with (broadcast_json_depth depth')
                end obj ex st (clients st) Hl []).
  rewrite emit_all_nil. by destruct depth.
Qed.

(** ** The handler *)

Section HandlerFacts.
Context `{Collaborators}.

Lemma has_type_chat_not_auth data :
  has_type data "chat" = true -> has_type data "auth" = false.
Proof.
  unfold has_type. destruct (dict_get data _ _); try done.
  intros ->%bool_decide_eq_true. reflexivity.
Qed.

Lemma send_open c msg st :
  links st !! c = Some Open -> send c msg st = (Ok tt, emit (Sent c msg) st).
Proof. intros Ho. unfold send. by rewrite Ho. Qed.

(** A [send] on a link that is not [Open] raises [ConnectionClosed]. *)
Lemma send_not_open c msg st :
  links st !! c <> Some Open ->
  send c msg st = (Raise ConnectionClosed, hung_up c st).
Proof.
  intros Ho. unfold send, hung_up.
  by destruct (links st !! c) as [[]|].
Qed.

(** A frame of type "chat" on a connection that is in [users] reaches the
    branch for chat messages. *)
Lemma handle_message_chat c u now data st :
  dict_lookup c (users st) = Some u ->
  has_type data "chat" = true ->
  handle_message c now (Some (JDict data)) st = handle_chat c u now data st.
Proof.
  intros Hu Hc. unfold handle_message.
  rewrite (has_type_chat_not_auth _ Hc), Hc.
  unfold bind, gets. by rewrite Hu.
Qed.

(** ... and, when its content is a string that is neither empty nor too
    long after stripping, the rate limit. *)
Lemma handle_chat_checked c u now data content st :
  dict_get data (py "content") (JStr []) = JStr content ->
  truthy (strip content) = true ->
  (length (strip content) <= 200)%nat ->
  handle_chat c u now data st =
    match last_message_times st !! c with
    | Some last =>
        if now - last <? second then
          (let* n := increment rate_limit_counts set_rate_limit_counts c in
           send c (Warning (py "Too fast! Slow down.")) >>
           if (5 <=? n)%nat then
             ban (email u) >>
             send c (Kick (py "Banned for spamming.")) >>
             close c >> ret Return
           else ret Continue)%M st
        else
          handle_content c u now (strip content)
            (set_last_message_times <[c := now]> st)
    | None =>
        handle_content c u now (strip content)
          (set_last_message_times <[c := now]> st)
    end.
Proof.
  intros Hd Ht Hl. unfold handle_chat. rewrite Hd, Ht. simpl.
  destruct (200 <? length (strip content))%nat eqn:Hlen;
    [apply Nat.ltb_lt in Hlen; lia|].
  unfold bind at 1. unfold gets.
  destruct (last_message_times st !! c) as [last|]; [|done].
  by destruct (now - last <? second).
Qed.


Lemma check_safe_state text st verdict st' :
  check_safe text st = (Ok verdict, st') ->
  st' = st \/ st' = emit (HfPost text) st.
Proof.
  intros Hcs. destruct (check_safe_run text st) as [v [Hv|Hv]];
    rewrite Hv in Hcs; injection Hcs as _ <-; auto.
Qed.




Lemma increment_some table set c n st :
  table st !! c = Some n ->
  increment table set c st = (Ok (S n), set <[c := S n]> st).
Proof. intros Hn. unfold increment. by rewrite Hn. Qed.



(** A failed [send] changes nothing but the link. *)
Lemma hung_up_tables c st :
  clients (hung_up c st) = clients st /\
  users (hung_up c st) = users st /\
  unsafe_counts (hung_up c st) = unsafe_counts st /\
  rate_limit_counts (hung_up c st) = rate_limit_counts st /\
  last_message_times (hung_up c st) = last_message_times st /\
  banned_emails (hung_up c st) = banned_emails st /\
  trace (hung_up c st) = trace st.
Proof. unfold hung_up. by destruct (links st !! c) as [[]|]. Qed.

End HandlerFacts.

(** C10, as stated, fails: the length that is checked is the one of the
    stripped content. A content of 250 code points, 150 letters between
    two runs of 50 blanks, is let through: its 150 letters are broadcast and
    the time of the message is recorded, and no warning is sent. *)
Lemma C10_padded_content_counterexample :
  let content := replicate 50 32%N ++ replicate 150 120%N ++ replicate 50 32%N in
  let r := @handle_message Demo.services 1%nat 5000000
             (Some (JDict (Demo.chat_data content))) Demo.lobby in
  dict_lookup 1%nat (users Demo.lobby) = Some Demo.alice /\
  length content = 250%nat /\
  fst r = Ok Continue /\
  trace (snd r) =
    trace Demo.lobby ++
    [HfPost (replicate 150 120%N);
     Sent 1%nat (Chat (replicate 150 120%N) (py "alice@x.org")
                   (py "alice@x.org") [] 5000000);
     Sent 2%nat (Chat (replicate 150 120%N) (py "alice@x.org")
                   (py "alice@x.org") [] 5000000)] /\
  last_message_times Demo.lobby !! 1%nat = None /\
  last_message_times (snd r) !! 1%nat = Some 5000000.
Proof. vm_compute. repeat split. Qed.

(** C10, amended. A chat message of an authenticated connection whose
    content, once stripped, is longer than 200 code points changes no
    count, no time stamp and no ban, and nothing goes to anybody else. When
    the peer is there, the sender gets the warning "Message too long.", the
    state is the one before with that one frame added to the trace, and the
    handler stays in its loop with the connection open. When the peer has
    vanished the warning cannot be sent, and the handler is left by the
    exception. *)
Theorem C10_too_long `{Collaborators} (c : ws) (u : user) (now : Z)
    (data : list (str * json)) (content : str) (st : state) :
  dict_lookup c (users st) = Some u ->
  has_type data "chat" = true ->
  dict_get data (py "content") (JStr []) = JStr content ->
  (200 < length (strip content))%nat ->
  let r := handle_message c now (Some (JDict data)) st in
  let st' := emit (Sent c (Warning (py "Message too long."))) st in
  (links st !! c = Some Open ->
   r = (Ok Continue, st') /\
   handle_client_turn c now (Some (JDict data)) st = (Ok true, st') /\
   is_open st' c = true) /\
  (links st !! c <> Some Open ->
   r = (Raise ConnectionClosed, hung_up c st) /\
   trace (snd r) = trace st) /\
  unsafe_counts (snd r) = unsafe_counts st /\
  rate_limit_counts (snd r) = rate_limit_counts st /\
  last_message_times (snd r) = last_message_times st /\
  banned_emails (snd r) = banned_emails st /\
  forall c' msg, Sent c' msg ∈ trace (snd r) -> Sent c' msg ∉ trace st ->
                 c' = c /\ msg = Warning (py "Message too long.").
Proof.
  intros Hu Ht Hd Hlen r st'.
  assert (r = (send c (Warning (py "Message too long.")) >> ret Continue)%M st)
    as Hr.
  { unfold r. rewrite (handle_message_chat c u) by done. unfold handle_chat.
    rewrite Hd. destruct (strip content) eqn:Hs; [simpl in Hlen; lia|].
    cbn [truthy negb]. apply Nat.ltb_lt in Hlen. by rewrite Hlen. }
  assert (links st !! c = Some Open -> r = (Ok Continue, st')) as Hopen.
  { intros Ho. rewrite Hr. unfold bind. by rewrite send_open. }
  assert (links st !! c <> Some Open ->
          r = (Raise ConnectionClosed, hung_up c st)) as Hlost.
  { intros Ho. rewrite Hr. unfold bind. by rewrite send_not_open. }
  split; [|split].
  - intros Ho. split; [auto|]. split.
    + unfold handle_client_turn. fold r. by rewrite Hopen.
    + unfold is_open. simpl. by rewrite Ho.
  - intros Ho. split; [auto|]. rewrite Hlost by done.
    apply hung_up_tables.
  - destruct (decide (links st !! c = Some Open)) as [Ho|Ho].
    + rewrite Hopen by done. do 4 (split; [reflexivity|]).
      intros c' msg Hin Hnew. cbn in Hin.
      apply elem_of_app in Hin as [Hin|Hin]; [done|].
      apply list_elem_of_singleton in Hin. by inversion Hin.
    + rewrite Hlost by done. cbn [snd].
      destruct (hung_up_tables c st) as (_ & _ & -> & -> & -> & -> & ->).
      do 4 (split; [reflexivity|]). intros; done.
Qed.

Lemma C10_too_long_witness :
  let st := Demo.lobby in
  let st' := emit (Sent 1%nat (Warning (py "Message too long."))) st in
  let data := Demo.chat_data (replicate 201 120%N) in
  @handle_message Demo.services 1%nat 5000000 (Some (JDict data)) st
    = (Ok Continue, st') /\
  @handle_client_turn Demo.services 1%nat 5000000 (Some (JDict data)) st
    = (Ok true, st') /\
  is_open st' 1%nat = true.
Proof.
  intros st st' data.
  destruct (@C10_too_long Demo.services 1%nat Demo.alice 5000000
              (Demo.chat_data (replicate 201 120%N)) (replicate 201 120%N)
              Demo.lobby) as [Hopen _].
  - vm_compute. reflexivity.
  - vm_compute. reflexivity.
  - vm_compute. reflexivity.
  - vm_compute. lia.
  - apply Hopen. vm_compute. reflexivity.
Defined.

Section ContentFacts.
Context `{Collaborators}.


End ContentFacts.






(** The count of content violations is the one kept for the connection: an
    accepted sign-in sets it back to zero. Two of Alice's messages are
    blocked, the connection signs in as Bob, and two more of its messages
    are blocked: four violations on one connection, and nobody is banned. *)
Lemma four_violations_no_ban :
  let sv := @run Demo.services
              [Connect 1%nat; Frame 1%nat 0 (Demo.auth "alice@x.org");
               Frame 1%nat 1000000 (Demo.chat "darn");
               Frame 1%nat 2000000 (Demo.chat "oh darn");
               Frame 1%nat 3000000 (Demo.auth "bob@x.org");
               Frame 1%nat 4000000 (Demo.chat "darn again");
               Frame 1%nat 5000000 (Demo.chat "and darn")] in
  unsafe_counts (mem sv) !! 1%nat = Some 2%nat /\
  banned_emails (mem sv) = ∅ /\
  looping sv = [1%nat] /\
  is_open (mem sv) 1%nat = true.
Proof. vm_compute. repeat split. Qed.



(** ** Authentication *)

Lemma dict_lookup_set_eq {V} (c : ws) (v : V) (d : list (ws * V)) :
  dict_lookup c (dict_set c v d) = Some v.
Proof.
  induction d as [|[k w] d IH]; simpl.
  - by destruct (decide (c = c)).
  - destruct (decide (k = c)) as [->|Hne]; simpl.
    + by destruct (decide (c = c)).
    + by destruct (decide (k = c)).
Qed.

Lemma dict_lookup_elem {V} (c : ws) (v : V) (d : list (ws * V)) :
  dict_lookup c d = Some v -> (c, v) ∈ d.
Proof.
  induction d as [|[k w] d IH]; simpl; [done|].
  destruct (decide (k = c)) as [->|Hne].
  - intros [= ->]. set_solver.
  - set_solver.
Qed.

Lemma same_at_forget_other c c' st : c' <> c -> same_at c' st (forget c st).
Proof.
  intros Hne. unfold forget. repeat split; simpl.
  - by apply dict_lookup_del_ne.
  - by rewrite lookup_delete_ne.
  - by rewrite lookup_delete_ne.
  - by rewrite lookup_delete_ne.
  - by apply elem_of_list_remove_ne.
  - by apply elem_of_list_remove_ne.
Qed.

Lemma evolves_fresh st st' c :
  evolves st st' -> links st !! c <> Some Stale ->
  same_at c st st' /\ links st' !! c = links st !! c.
Proof.
  intros Hev Hc. destruct (ev_links _ _ Hev c) as [He|[? _]]; [|done].
  split; [by apply ev_same|done].
Qed.

(** Removing [c] leaves every other connection whose peer is still there as
    it is. *)
Lemma remove_client_other depth c c' st :
  c' <> c -> links st !! c' <> Some Stale ->
  let st' := remove_client_with (broadcast_json_depth depth) c st in
  same_at c' st st' /\ links st' !! c' = links st !! c'.
Proof.
  intros Hne Hc'. unfold remove_client_with.
  destruct (decide _) as [_|]; [|by split; [apply same_at_refl|]].
  cbn zeta.
  set (s2 := forget c st).
  assert (same_at c' st s2 /\ links s2 !! c' = links st !! c') as [H2 L2].
  { split; [by apply same_at_forget_other|done]. }
  set (s3 := match dict_lookup c (users st) with
             | Some u => broadcast_json_depth depth
                           (System (name u ++ py " left the chat.")) None s2
             | None => s2
             end).
  assert (same_at c' s2 s3 /\ links s3 !! c' = links s2 !! c') as [H3 L3].
  { unfold s3. destruct (dict_lookup c (users st)).
    - apply evolves_fresh; [apply broadcast_evolves|congruence].
    - split; [apply same_at_refl|done]. }
  destruct (evolves_fresh s3
              (broadcast_json_depth depth (UserList (users s3).*2) None s3) c')
    as [H4 L4]; [apply broadcast_evolves|congruence|].
  split; [|congruence].
  eapply same_at_trans; [|exact H4]. by eapply same_at_trans.
Qed.

Section AuthFacts.
Context `{Collaborators}.

Lemma handle_message_auth c now data st :
  has_type data "auth" = true ->
  handle_message c now (Some (JDict data)) st = handle_auth c data st.
Proof. intros Ht. unfold handle_message. by rewrite Ht. Qed.

Lemma kick_run c notice st :
  links st !! c = Some Open ->
  (send c (Kick notice) >> close c >> ret Return)%M st
  = (Ok Return, kicked c notice st).
Proof.
  intros Ho. unfold bind at 1. by rewrite send_open.
Qed.

Lemma kick_not_continue c notice st :
  fst ((send c (Kick notice) >> close c >> ret Return)%M st) <> Ok Continue.
Proof.
  unfold bind at 1.
  destruct (send_cases c (Kick notice) st) as [[_ ->]|[[_ ->]|[_ ->]]]; done.
Qed.

(** An [auth] frame after which the handler stays in its loop carried a
    token that verifies to an e-mail that is neither banned nor held by an
    entry of [users]. *)
Lemma handle_auth_continue c data st :
  fst (handle_auth c data st) = Ok Continue ->
  exists u,
    verify_google_token (dict_get data (py "token") JNull) = Some u /\
    truthy (email u) = true /\
    (email u ∉ banned_emails st) /\
    (email u ∉ (email ∘ snd) <$> users st).
Proof.
  unfold handle_auth.
  destruct (verify_google_token _) as [u|];
    [|by intros ?%kick_not_continue].
  destruct (truthy (email u)) eqn:Ht; cbn [negb];
    [|by intros ?%kick_not_continue].
  unfold bind at 1. unfold gets at 1.
  destruct (bool_decide (email u ∈ banned_emails st)) eqn:Hb;
    [by intros ?%kick_not_continue|].
  unfold bind at 1. unfold gets at 1.
  destruct (bool_decide (email u ∈ (email ∘ snd) <$> users st)) eqn:Ha;
    [by intros ?%kick_not_continue|].
  intros _. exists u.
  apply bool_decide_eq_false in Hb, Ha. done.
Qed.

(** What [handle_auth] does with a token that verifies to an e-mail that is
    neither banned nor active, on a connection whose link is [Open]:
    whatever the connection was before, it now has the identity of the token
    and both its counts are zero. *)
Lemma handle_auth_accepts c data u st :
  verify_google_token (dict_get data (py "token") JNull) = Some u ->
  truthy (email u) = true ->
  email u ∉ banned_emails st ->
  email u ∉ (email ∘ snd) <$> users st ->
  links st !! c = Some Open ->
  exists st',
    handle_auth c data st = (Ok Continue, st') /\
    dict_lookup c (users st') = Some u /\
    unsafe_counts st' !! c = Some 0%nat /\
    rate_limit_counts st' !! c = Some 0%nat.
Proof.
  intros Hv Ht Hb Ha Ho. unfold handle_auth. rewrite Hv, Ht. cbn [negb].
  unfold bind at 1. unfold gets at 1.
  rewrite bool_decide_eq_false_2 by done.
  unfold bind at 1. unfold gets at 1.
  rewrite bool_decide_eq_false_2 by done.
  unfold bind at 1. unfold modify at 1.
  unfold bind at 1. unfold modify at 1.
  unfold bind at 1. unfold modify at 1.
  unfold bind at 1. unfold broadcast_system, broadcast_json, modify at 1.
  unfold bind at 1. unfold broadcast_user_list.
  unfold bind at 1. unfold gets at 1. unfold broadcast_json, modify.
  set (s1 := set_rate_limit_counts _ _).
  set (s2 := broadcast_json_depth _ _ _ s1).
  set (s3 := broadcast_json_depth _ _ _ s2).
  assert (links s1 !! c = Some Open) as Ho1 by exact Ho.
  destruct (evolves_open s1 s2 c) as [Ho2 E2];
    [apply broadcast_evolves|done|].
  destruct (evolves_open s2 s3 c) as [Ho3 E3];
    [apply broadcast_evolves|done|].
  unfold bind at 1. rewrite send_open by exact Ho3.
  eexists. split; [reflexivity|].
  destruct (same_at_trans _ _ _ _ E2 E3) as (Hu & Hn & Hr & _).
  cbn [emit users unsafe_counts rate_limit_counts]. rewrite Hu, Hn, Hr.
  unfold s1. cbn. rewrite dict_lookup_set_eq, lookup_insert_eq.
  rewrite lookup_insert_eq. done.
Qed.

End AuthFacts.

(** C4, as stated, fails: the ban is looked up under the e-mail the verifier
    returns, so a credential the verifier rejects is answered by "Invalid
    Google Sign-In", not by "You are banned.", also when it is the expired
    token of a banned e-mail. *)
Lemma C4_invalid_credential_counterexample :
  py "alice@x.org" ∈ banned_emails Demo.alice_banned /\
  @handle_message Demo.services 2%nat 9000000
    (Demo.auth "expired:alice@x.org") Demo.alice_banned
  = (Ok Return, kicked 2%nat (py "Invalid Google Sign-In") Demo.alice_banned) /\
  kicked 2%nat (py "Invalid Google Sign-In") Demo.alice_banned
  <> kicked 2%nat (py "You are banned.") Demo.alice_banned.
Proof.
  split; [|split].
  - vm_compute. set_solver.
  - vm_compute. reflexivity.
  - vm_compute. discriminate.
Qed.

(** C4, amended. An [auth] frame whose token verifies to an e-mail that is in
    the ban set is answered by the kick "You are banned." and the close of the
    connection, and the handler returns: nothing else changes, whoever else is
    connected. A token the verifier rejects is answered by the kick "Invalid
    Google Sign-In" in the same way. And an [auth] frame after which the
    handler stays in its loop carried an e-mail that is not banned. *)
Theorem C4_banned_email `{Collaborators} (c : ws) (now : Z)
    (data : list (str * json)) (st : state) :
  has_type data "auth" = true ->
  links st !! c = Some Open ->
  let token := dict_get data (py "token") JNull in
  let r := handle_message c now (Some (JDict data)) st in
  (forall u, verify_google_token token = Some u ->
             truthy (email u) = true -> email u ∈ banned_emails st ->
             r = (Ok Return, kicked c (py "You are banned.") st)) /\
  (verify_google_token token = None ->
   r = (Ok Return, kicked c (py "Invalid Google Sign-In") st)) /\
  (fst r = Ok Continue ->
   exists u, verify_google_token token = Some u /\
             (email u ∉ banned_emails st)).
Proof.
  intros Ht Ho token r. unfold r. rewrite handle_message_auth by done.
  split; [|split].
  - intros u Hv He Hb. unfold handle_auth. fold token. rewrite Hv, He.
    cbn [negb]. unfold bind at 1. unfold gets at 1.
    rewrite bool_decide_eq_true_2 by done. by apply kick_run.
  - intros Hv. unfold handle_auth. fold token. rewrite Hv. by apply kick_run.
  - intros (u & Hv & _ & Hb & _)%handle_auth_continue. eauto.
Qed.

Lemma C4_banned_email_witness :
  @handle_message Demo.services 2%nat 9000000 (Demo.auth "alice@x.org")
    Demo.alice_banned
  = (Ok Return, kicked 2%nat (py "You are banned.") Demo.alice_banned).
Proof.
  destruct (@C4_banned_email Demo.services 2%nat 9000000
              (Demo.auth_data "alice@x.org") Demo.alice_banned)
    as [Hban _].
  - vm_compute. reflexivity.
  - vm_compute. reflexivity.
  - apply (Hban Demo.alice).
    + vm_compute. reflexivity.
    + vm_compute. reflexivity.
    + vm_compute. set_solver.
Defined.

(** C5, as stated, fails: the ban set is consulted before the active
    sessions. Alice, banned through the command [/ai], is still in [users]
    while the handler of her connection is in its loop; a second connection
    that signs in as Alice is told "You are banned.", not that the account is
    active. *)
Lemma C5_banned_first_counterexample :
  let st := mem Demo.lingering in
  dict_lookup 1%nat (users st) = Some Demo.alice /\
  1%nat ∈ looping Demo.lingering /\
  @verify_google_token Demo.services (JStr (py "alice@x.org"))
  = Some Demo.alice /\
  @handle_message Demo.services 2%nat 9000000 (Demo.auth "alice@x.org") st
  = (Ok Return, kicked 2%nat (py "You are banned.") st) /\
  kicked 2%nat (py "You are banned.") st
  <> kicked 2%nat (warning_sign ++ py " This account is already active.") st.
Proof.
  split; [|split; [|split; [|split]]].
  - vm_compute. reflexivity.
  - vm_compute. set_solver.
  - vm_compute. reflexivity.
  - vm_compute. reflexivity.
  - vm_compute. discriminate.
Qed.

(** C5, amended. When an entry of [users] under another connection holds the
    e-mail a token verifies to, and that e-mail is not banned, the [auth]
    frame is answered by the kick "This account is already active." and the
    close of the connection, and the handler returns; nothing else has
    changed. After the [finally] clause of the returning handler the tables
    still say of every other connection whose peer has not vanished, the
    holder of the e-mail among them, what they said before. *)
Theorem C5_already_active `{Collaborators} (c c' : ws) (now : Z)
    (data : list (str * json)) (u u' : user) (st : state) :
  has_type data "auth" = true ->
  verify_google_token (dict_get data (py "token") JNull) = Some u ->
  truthy (email u) = true ->
  email u ∉ banned_emails st ->
  c' <> c ->
  dict_lookup c' (users st) = Some u' ->
  email u' = email u ->
  links st !! c = Some Open ->
  handle_message c now (Some (JDict data)) st
  = (Ok Return,
     kicked c (warning_sign ++ py " This account is already active.") st) /\
  let turn := handle_client_turn c now (Some (JDict data)) st in
  fst turn = Ok false /\
  (links st !! c' <> Some Stale ->
   same_at c' st (snd turn) /\ links (snd turn) !! c' = links st !! c').
Proof.
  intros Ht Hv He Hb Hne Hu' Hsame Ho.
  assert (handle_message c now (Some (JDict data)) st
          = (Ok Return,
             kicked c (warning_sign ++ py " This account is already active.")
               st)) as Hm.
  { rewrite handle_message_auth by done. unfold handle_auth.
    rewrite Hv, He. cbn [negb]. unfold bind at 1. unfold gets at 1.
    rewrite bool_decide_eq_false_2 by done.
    unfold bind at 1. unfold gets at 1.
    rewrite bool_decide_eq_true_2; [by apply kick_run|].
    apply list_elem_of_fmap. exists (c', u'). split; [by simpl|].
    by apply dict_lookup_elem. }
  split; [done|]. cbn zeta.
  unfold handle_client_turn. rewrite Hm.
  unfold remove_client, modify. cbn [fst snd].
  split; [done|]. intros Hfresh.
  set (s1 := kicked c _ st).
  destruct (remove_client_other (length (clients s1)) c c' s1) as [Hs Hl];
    [done| |].
  - unfold s1, kicked. simpl. by rewrite lookup_insert_ne.
  - split.
    + eapply same_at_trans; [|exact Hs]. by repeat split.
    + rewrite Hl. unfold s1, kicked. simpl. by rewrite lookup_insert_ne.
Qed.

Lemma C5_already_active_witness :
  let data := Demo.auth_data "alice@x.org" in
  let turn := @handle_client_turn Demo.services 2%nat 9000000
                (Some (JDict data)) Demo.lobby in
  @handle_message Demo.services 2%nat 9000000 (Some (JDict data)) Demo.lobby
  = (Ok Return,
     kicked 2%nat (warning_sign ++ py " This account is already active.")
       Demo.lobby) /\
  fst turn = Ok false /\
  same_at 1%nat Demo.lobby (snd turn) /\
  links (snd turn) !! 1%nat = links Demo.lobby !! 1%nat.
Proof.
  intros data turn.
  destruct (@C5_already_active Demo.services 2%nat 1%nat 9000000 data
              Demo.alice Demo.alice Demo.lobby) as (Hm & Hf & Hsame).
  - vm_compute. reflexivity.
  - vm_compute. reflexivity.
  - vm_compute. reflexivity.
  - vm_compute. set_solver.
  - lia.
  - vm_compute. reflexivity.
  - reflexivity.
  - vm_compute. reflexivity.
  - split; [exact Hm|]. split; [exact Hf|]. apply Hsame.
    vm_compute. discriminate.
Defined.

(** C8 does not hold of the program: an [auth] frame is accepted from a
    connection that is already authenticated. Alice, with two content
    violations counted on her connection, sends the token of Bob on it: the
    handler stays in its loop, the connection now has the identity of Bob and
    its count of content violations is back to zero. *)
Theorem C8_reauth_resets :
  let st := Demo.two_strikes in
  let r := @handle_message Demo.services 1%nat 9000000
             (Demo.auth "bob@x.org") st in
  dict_lookup 1%nat (users st) = Some Demo.alice /\
  unsafe_counts st !! 1%nat = Some 2%nat /\
  fst r = Ok Continue /\
  dict_lookup 1%nat (users (snd r)) = Some Demo.bob /\
  unsafe_counts (snd r) !! 1%nat = Some 0%nat /\
  rate_limit_counts (snd r) !! 1%nat = Some 0%nat.
Proof. vm_compute. repeat split; reflexivity. Qed.

(** ** The broadcast *)

Lemma broadcast_shuts depth obj ex st c :
  c ∈ clients st -> links st !! c = Some Stale -> ex <> Some c ->
  links (broadcast_json_depth depth obj ex st) !! c = Some Shut.
Proof.
  intros Hc Hs Hex. destruct depth; simpl.
  - apply (foldl_deliver_shuts _ _ _ _ remove_nothing_good st);
      auto using evolves_refl.
  - apply (foldl_deliver_shuts _ _ _ _
             (remove_evolves _ (broadcast_evolves depth)) st);
      auto using evolves_refl.
Qed.

(** C9, as stated, fails: a broadcast goes to the connections in [clients],
    which hold every connection from the moment it is accepted. Connection 2
    has not authenticated and receives the chat message all the same. *)
Lemma C9_unauthenticated_counterexample :
  let obj := Chat (py "hi all") (py "alice@x.org") (py "alice@x.org") [] 5 in
  dict_lookup 2%nat (users Demo.lobby) = None /\
  Sent 2%nat obj ∈ trace (snd (broadcast_json obj None Demo.lobby)) /\
  Sent 2%nat obj ∉ trace Demo.lobby.
Proof.
  split; [|split].
  - vm_compute. reflexivity.
  - vm_compute. set_solver.
  - vm_compute. intros Hin.
    repeat (apply elem_of_cons in Hin as [Hin|Hin]; [discriminate Hin|]).
    by apply elem_of_nil in Hin.
Qed.

(** C9, amended. A broadcast sends the object to the connections of
    [clients] that report [open], the excluded one apart, whether they have
    authenticated or not.
    - Every such connection whose send goes through receives the object,
      whatever happens to the others.
    - Nothing but frames is added to the trace, and they go to registered
      connections with an [Open] link.
    - When no registered connection has lost its peer, the state afterwards
      is the state before with exactly those frames added.
    - A registered connection whose send fails is taken out of [clients],
      [users] and the three tables, and the presence list is then sent to
      every registered connection with an [Open] link. *)
Theorem C9_broadcast (obj : event) (ex : option ws) (st : state) :
  wf st ->
  let st' := snd (broadcast_json obj ex st) in
  (forall c, c ∈ clients st -> links st !! c = Some Open -> ex <> Some c ->
             since st st' (Sent c obj)) /\
  (exists t,
     trace st' = trace st ++ t /\
     Forall (fun e => exists c m, e = Sent c m /\ links st !! c = Some Open /\
                                  c ∈ clients st) t) /\
  ((forall c, c ∈ clients st -> links st !! c <> Some Stale) ->
   st' = emit_all ((fun c => Sent c obj) <$> recipients ex st) st) /\
  (forall c, c ∈ clients st -> links st !! c = Some Stale -> ex <> Some c ->
             gone c st' /\ notified st st').
Proof.
  intros Hwf st'. unfold st', broadcast_json, modify. cbn [snd].
  split; [|split; [|split]].
  - intros c Hc Ho Hex. by apply broadcast_sends.
  - apply (ev_trace _ _ (broadcast_evolves _ obj ex st)).
  - intros Hh. by apply broadcast_healthy.
  - intros c Hc Hs Hex. apply broadcast_removes; auto.
    by apply broadcast_shuts.
Qed.

Lemma C9_broadcast_witness :
  let obj := System (py "hello") in
  let st := Demo.crowd in
  let st' := snd (broadcast_json obj None st) in
  since st st' (Sent 1%nat obj) /\
  since st st' (Sent 2%nat obj) /\
  gone 3%nat st' /\ notified st st'.
Proof.
  assert (wf Demo.crowd) as Hwf by (split; compute_done).
  assert (1%nat ∈ clients Demo.crowd) as H1 by compute_done.
  assert (2%nat ∈ clients Demo.crowd) as H2 by compute_done.
  assert (3%nat ∈ clients Demo.crowd) as H3 by compute_done.
  assert (links Demo.crowd !! 1%nat = Some Open) as L1 by compute_done.
  assert (links Demo.crowd !! 2%nat = Some Open) as L2 by compute_done.
  assert (links Demo.crowd !! 3%nat = Some Stale) as L3 by compute_done.
  intros obj st st'.
  destruct (C9_broadcast obj None st Hwf) as (Hsend & _ & _ & Hfail).
  split; [|split].
  - by apply Hsend.
  - by apply Hsend.
  - by apply Hfail.
Defined.

(** * Further properties *)

(** ** The moderation pipeline, case by case *)

Section ModerationMore.
Context `{Collaborators}.

(** X1. The pipeline rejects a text in two cases only: the word list finds a
    match, or a key is configured and the answer of the toxicity model
    carries a score for the label "toxic" that compares above one half and
    that the reason can print. A score that cannot be printed, an integer
    beyond the range of a float, lets the text through. *)
Theorem check_safe_blocks_iff (text : str) (st : state) :
  exists verdict st',
    check_safe text st = (Ok verdict, st') /\
    (fst verdict = false <->
     check_profanity_text text = true \/
     (has_key = true /\
      exists r s, hf_inference text = Some r /\ toxic_score_of r = Some s /\
                  gt_half s = Some true /\ format_score s <> None)).
Proof.
  unfold check_safe. destruct (check_profanity_text text) eqn:Hp.
  - eexists _, _. split; [reflexivity|]. simpl. tauto.
  - rewrite check_hf_toxicity_run. destruct has_key eqn:Hk.
    + eexists _, _. split; [reflexivity|]. unfold hf_verdict.
      destruct (hf_inference text) as [r|] eqn:Hr; cbn [fst];
        [|split; [done|intros [?|(_ & r & s & ? & _)]; congruence]].
      destruct (toxic_score_of r) as [s|] eqn:Hs; cbn [fst];
        [|split; [done|intros [?|(_ & r' & s & ? & ? & _)]; congruence]].
      destruct (gt_half s) as [[]|] eqn:Hg; cbn [fst];
        [|split; [done|intros [?|(_ & r' & s' & ? & ? & ? & _)]; congruence]..].
      unfold flagged_reason.
      destruct (format_score s) as [score|] eqn:Hf; cbn [fst]; split; try done.
      * intros _. right. split; [done|]. exists r, s. by rewrite Hf.
      * intros [?|(_ & r' & s' & ? & ? & ? & ?)]; congruence.
    + eexists _, _. split; [reflexivity|]. cbn [fst].
      split; [done|intros [?|[? _]]; done].
Qed.

(** X2. All the pipeline does to the state is to record the one request it
    makes to the toxicity model, and it makes it exactly for the texts that
    pass the word list while a key is configured. It never raises. *)
Theorem check_safe_effect (text : str) (st : state) :
  exists verdict,
    check_safe text st =
      (Ok verdict,
       emit_all (if negb (check_profanity_text text) && has_key
                 then [HfPost text] else []) st).
Proof.
  unfold check_safe. destruct (check_profanity_text text); cbn [negb andb].
  - rewrite emit_all_nil. by eexists.
  - rewrite check_hf_toxicity_run. destruct has_key.
    + by eexists.
    + rewrite emit_all_nil. by eexists.
Qed.

End ModerationMore.

(** The loop over the items of an answer, one part after the other. *)
Lemma scan_block_app (l1 l2 : list json) (s : json) :
  scan_block (l1 ++ l2) s =
  match scan_block l1 s with
  | Some s' => scan_block l2 s'
  | None => None
  end.
Proof.
  revert s. induction l1 as [|x l1 IH]; intros s; simpl; [done|].
  destruct x; try done.
  destruct (dict_get d (py "label") JNull); try apply IH.
  destruct (decide _); apply IH.
Qed.

(** X3. When several items of an answer carry the label "toxic", the last
    one decides: the score read is the score of that item (and zero when it
    has no score), whatever the items before it say. *)
Theorem scan_block_last_wins (block rest : list json)
    (item : list (str * json)) (s : json) :
  is_Some (scan_block block s) ->
  dict_get item (py "label") JNull = JStr (py "toxic") ->
  (forall s', scan_block rest s' = Some s') ->
  scan_block (block ++ JDict item :: rest) s
  = Some (dict_get item (py "score") (JNum 0)).
Proof.
  intros [s1 Hs1] Hl Hrest. rewrite scan_block_app, Hs1. simpl.
  rewrite Hl. destruct (decide _); [|done]. apply Hrest.
Qed.

Lemma scan_block_last_wins_witness :
  scan_block
    ([JDict [(py "label", JStr (py "toxic")); (py "score", JNum (9 # 10))]] ++
     JDict [(py "label", JStr (py "toxic")); (py "score", JNum (1 # 10))] ::
     [JDict [(py "label", JStr (py "insult")); (py "score", JNum (8 # 10))]])
    (JNum 0)
  = Some (dict_get [(py "label", JStr (py "toxic"));
                    (py "score", JNum (1 # 10))] (py "score") (JNum 0)).
Proof.
  apply scan_block_last_wins.
  - simpl. eauto.
  - reflexivity.
  - intros s'. reflexivity.
Defined.

(** X4. One item that is not an object spoils the whole answer: no score is
    read from it, and the verdict is "safe", whatever score another item
    gives to the label "toxic". *)
Theorem unreadable_item_fails_open (block rest : list json) (x : json) :
  x ∈ block -> (forall d, x <> JDict d) ->
  (forall s, scan_block block s = None) /\
  hf_verdict (Some (JList (JList block :: rest))) = (true, py "HF unavailable").
Proof.
  intros Hx Hd.
  assert (forall s, scan_block block s = None) as Hscan.
  { induction block as [|y block IH]; intros s;
      [by apply elem_of_nil in Hx|].
    apply elem_of_cons in Hx as [<-|Hx].
    - destruct x; try done. by destruct (Hd d).
    - simpl. destruct y; try done.
      destruct (dict_get d (py "label") JNull); auto.
      destruct (decide _); auto. }
  split; [done|]. unfold hf_verdict, toxic_score_of. by rewrite Hscan.
Qed.

Lemma unreadable_item_fails_open_witness :
  let block := [JDict [(py "label", JStr (py "toxic"));
                       (py "score", JNum (99 # 100))];
                JStr (py "oops")] in
  (forall s, scan_block block s = None) /\
  hf_verdict (Some (JList (JList block :: []))) = (true, py "HF unavailable").
Proof.
  intros block.
  apply (unreadable_item_fails_open block [] (JStr (py "oops"))).
  - unfold block. set_solver.
  - intros d. discriminate.
Defined.

(** ** What broadcasts and removals are made of *)

(** A broadcast changes the state by three moves only: it adds a frame to the
    trace, it shuts the link of a registered connection, it takes a
    registered connection out of the tables. A property of states that
    survives the three moves, for the connections in [T], survives every
    broadcast from a state whose registered connections are in [T]. *)
Section BroadcastPreserves.
Variable P : state -> Prop.
Variable T : ws -> Prop.
Hypothesis P_emit : forall e st, P st -> P (emit e st).
Hypothesis P_shut : forall c st, T c -> P st -> P (set_links <[c := Shut]> st).
Hypothesis P_forget : forall c st, T c -> P st -> P (forget c st).

Lemma within_forget c st : within T st -> within T (forget c st).
Proof.
  intros Hw c' Hc'. apply Hw.
  eapply elem_of_sublist; [exact Hc'|apply list_remove_sublist].
Qed.

Lemma deliver_preserves remove obj ex st c :
  (forall c' st', T c' -> P st' /\ within T st' ->
                  P (remove c' st') /\ within T (remove c' st')) ->
  T c -> P st /\ within T st ->
  P (deliver remove obj ex st c) /\ within T (deliver remove obj ex st c).
Proof.
  intros Hrm Hc [HP Hw].
  destruct (deliver_cases remove obj ex st c) as [->|[[_ ->]|(_ & _ & ->)]].
  - done.
  - split; [by apply P_emit|done].
  - apply Hrm; [done|]. split; [by apply P_shut|done].
Qed.

Lemma foldl_deliver_preserves remove obj ex l :
  (forall c' st', T c' -> P st' /\ within T st' ->
                  P (remove c' st') /\ within T (remove c' st')) ->
  (forall c, c ∈ l -> T c) ->
  forall st, P st /\ within T st ->
             P (foldl (deliver remove obj ex) st l) /\
             within T (foldl (deliver remove obj ex) st l).
Proof.
  intros Hrm. induction l as [|c l IH]; intros Hl st Hst; simpl; [done|].
  apply IH; [set_solver|]. apply deliver_preserves; [done| |done].
  apply Hl. set_solver.
Qed.

Lemma broadcast_preserves_within depth :
  forall obj ex st,
    P st /\ within T st ->
    P (broadcast_json_depth depth obj ex st) /\
    within T (broadcast_json_depth depth obj ex st).
Proof.
  induction depth as [|d IH]; intros obj ex st Hst; simpl.
  - apply foldl_deliver_preserves; [done|apply Hst|done].
  - apply foldl_deliver_preserves; [|apply Hst|done].
    intros c st' Hc [HP Hw]. unfold remove_client_with.
    destruct (decide _); [|done]. cbn zeta.
    apply IH. destruct (dict_lookup c (users st')).
    + apply IH. split; [by apply P_forget|by apply within_forget].
    + split; [by apply P_forget|by apply within_forget].
Qed.

Lemma remove_client_preserves_within depth c st :
  T c -> P st /\ within T st ->
  P (remove_client_with (broadcast_json_depth depth) c st) /\
  within T (remove_client_with (broadcast_json_depth depth) c st).
Proof.
  intros Hc [HP Hw]. unfold remove_client_with.
  destruct (decide _); [|done]. cbn zeta.
  apply broadcast_preserves_within. destruct (dict_lookup c (users st)).
  - apply broadcast_preserves_within.
    split; [by apply P_forget|by apply within_forget].
  - split; [by apply P_forget|by apply within_forget].
Qed.

End BroadcastPreserves.

(** A connection that is not registered is out of reach of a broadcast. *)
Lemma broadcast_outsider depth obj ex st c :
  c ∉ clients st ->
  same_at c st (broadcast_json_depth depth obj ex st) /\
  links (broadcast_json_depth depth obj ex st) !! c = links st !! c.
Proof.
  intros Hc.
  apply (broadcast_preserves_within
           (fun st' => same_at c st st' /\ links st' !! c = links st !! c)
           (fun c' => c' <> c)).
  - intros e st' [Hs Hl]. split; [|done].
    eapply same_at_trans; [exact Hs|]. by repeat split.
  - intros c' st' Hne [Hs Hl]. split.
    + eapply same_at_trans; [exact Hs|]. by repeat split.
    + simpl. by rewrite lookup_insert_ne.
  - intros c' st' Hne [Hs Hl]. split; [|done].
    eapply same_at_trans; [exact Hs|].
    unfold forget. repeat split; simpl.
    + by apply dict_lookup_del_ne.
    + by rewrite lookup_delete_ne.
    + by rewrite lookup_delete_ne.
    + by rewrite lookup_delete_ne.
    + by apply elem_of_list_remove_ne.
    + by apply elem_of_list_remove_ne.
  - split; [split; [apply same_at_refl|done]|].
    intros c' Hc' ->. done.
Qed.

Lemma gone_same_at c st st' : gone c st -> same_at c st st' -> gone c st'.
Proof.
  intros (Hc & Hu & H1 & H2 & H3) (Hu' & H1' & H2' & H3' & Hc').
  repeat split; try congruence. tauto.
Qed.

Lemma remove_client_gone (c : ws) (st : state) :
  wf st -> c ∈ clients st -> gone c (snd (remove_client c st)).
Proof.
  intros Hwf Hc.
  unfold remove_client, modify, remove_client_with. cbn [snd].
  destruct (decide _); [|done]. cbn zeta.
  pose proof (gone_forget c st Hwf) as Hg2.
  set (s2 := forget c st) in *.
  set (s3 := match dict_lookup c (users st) with
             | Some u => broadcast_json_depth (length (clients st))
                           (System (name u ++ py " left the chat.")) None s2
             | None => s2
             end).
  assert (gone c s3) as Hg3.
  { unfold s3. destruct (dict_lookup c (users st)); [|done].
    eapply gone_same_at; [exact Hg2|].
    apply broadcast_outsider, Hg2. }
  eapply gone_same_at; [exact Hg3|]. apply broadcast_outsider, Hg3.
Qed.

(** X5. [remove_client] takes a registered connection out of [clients],
    [users] and the three tables, whatever broadcasts it sets off, and a
    second [remove_client] of the same connection does nothing: neither a
    leave notice nor a presence list is sent again. *)
Theorem remove_client_once (c : ws) (st : state) :
  wf st -> c ∈ clients st ->
  let st' := snd (remove_client c st) in
  gone c st' /\ remove_client c st' = (Ok tt, st').
Proof.
  intros Hwf Hc st'.
  assert (gone c st') as Hg by by apply remove_client_gone.
  split; [done|].
  unfold remove_client, modify, remove_client_with.
  destruct (decide _) as [Hin|]; [|done]. by destruct Hg.
Qed.

Lemma remove_client_once_witness :
  let st' := snd (remove_client 3%nat Demo.crowd) in
  gone 3%nat st' /\ remove_client 3%nat st' = (Ok tt, st').
Proof.
  apply remove_client_once.
  - split; compute_done.
  - compute_done.
Defined.

(** X6. A broadcast never raises and never touches the ban set; of a
    connection whose peer has not vanished it changes neither the link nor
    the entries in [users], in [clients] and in the three tables. *)
Theorem broadcast_json_frame (obj : event) (ex : option ws) (st : state) :
  exists st',
    broadcast_json obj ex st = (Ok tt, st') /\
    banned_emails st' = banned_emails st /\
    forall c, links st !! c <> Some Stale ->
              same_at c st st' /\ links st' !! c = links st !! c.
Proof.
  eexists. split; [reflexivity|].
  pose proof (broadcast_evolves (length (clients st)) obj ex st) as Hev.
  split; [apply (ev_banned _ _ Hev)|].
  intros c Hc. by apply evolves_fresh.
Qed.

(** X7. The calls between [broadcast_json] and [remove_client] nest no
    deeper than there are registered connections: allowing any greater depth
    gives the same state. *)
Theorem broadcast_depth_bounded (depth : nat) (obj : event) (ex : option ws)
    (st : state) :
  (length (clients st) <= depth)%nat ->
  broadcast_json_depth depth obj ex st = snd (broadcast_json obj ex st).
Proof.
  intros Hd. unfold broadcast_json, modify. cbn [snd].
  by apply (broadcast_depth_enough (length (clients st))).
Qed.

Lemma broadcast_depth_bounded_witness :
  broadcast_json_depth 7 (System (py "hello")) None Demo.crowd
  = snd (broadcast_json (System (py "hello")) None Demo.crowd).
Proof.
  apply broadcast_depth_bounded. vm_compute. lia.
Defined.

Lemma emit_all_app t1 t2 st :
  emit_all t2 (emit_all t1 st) = emit_all (t1 ++ t2) st.
Proof. unfold emit_all. simpl. by rewrite app_assoc. Qed.

(** X8. When no registered connection has lost its peer, [remove_client]
    of a registered connection takes it out of the tables and then sends, to
    the registered connections that report [open] (the one removed is no
    longer among them), the notice "<name> left the chat." when it was in
    [users], and in every case the presence list of those left in [users]. *)
Theorem remove_client_healthy (c : ws) (st : state) :
  c ∈ clients st ->
  (forall c', c' ∈ clients st -> links st !! c' <> Some Stale) ->
  let s2 := forget c st in
  let notice :=
    match dict_lookup c (users st) with
    | Some u =>
        (fun c' => Sent c' (System (name u ++ py " left the chat.")))
          <$> recipients None s2
    | None => []
    end in
  remove_client c st =
    (Ok tt,
     emit_all
       (notice ++
        ((fun c' => Sent c' (UserList (snd <$> users s2)))
           <$> recipients None s2)) s2).
Proof.
  intros Hc Hh s2 notice. unfold remove_client, modify, remove_client_with.
  destruct (decide _); [|done]. cbn zeta. fold s2.
  assert (forall c', c' ∈ clients s2 -> links s2 !! c' <> Some Stale) as Hh2.
  { intros c' Hc'. apply Hh.
    eapply elem_of_sublist; [exact Hc'|apply list_remove_sublist]. }
  f_equal. unfold notice. destruct (dict_lookup c (users st)) as [u|].
  - rewrite (broadcast_healthy _ _ None s2) by done.
    rewrite broadcast_healthy by exact Hh2. by rewrite emit_all_app.
  - by rewrite broadcast_healthy.
Qed.

Lemma remove_client_healthy_witness :
  remove_client 1%nat Demo.lobby =
    (Ok tt,
     emit_all
       ([Sent 2%nat (System (py "alice@x.org left the chat."))] ++
        [Sent 2%nat (UserList [])]) (forget 1%nat Demo.lobby)).
Proof.
  assert (1%nat ∈ clients Demo.lobby) as Hc by compute_done.
  assert (forall c', c' ∈ clients Demo.lobby ->
                     links Demo.lobby !! c' <> Some Stale) as Hh.
  { assert (clients Demo.lobby = [1; 2]%nat) as -> by compute_done.
    intros c' [->|[->|[]%elem_of_nil]%elem_of_cons]%elem_of_cons;
      compute_done. }
  rewrite (remove_client_healthy 1%nat Demo.lobby Hc Hh).
  vm_compute. reflexivity.
Defined.

(** ** Frames the handler turns away or lets pass *)

Section Frames.
Context `{Collaborators}.

(** X9. A frame that is an object of any type but "auth", on a connection
    that is not in [users], is answered by the kick "Not authenticated." and
    the close of the connection, and the handler returns; nothing else
    changes. *)
Theorem not_authenticated_kick (c : ws) (now : Z) (data : list (str * json))
    (st : state) :
  dict_lookup c (users st) = None ->
  has_type data "auth" = false ->
  links st !! c = Some Open ->
  handle_message c now (Some (JDict data)) st
  = (Ok Return, kicked c (py "Not authenticated.") st).
Proof.
  intros Hu Ht Ho. unfold handle_message. rewrite Ht.
  unfold bind at 1. unfold gets. rewrite Hu. by apply kick_run.
Qed.

(** X10. What an authenticated connection can send without any effect: a
    frame that is not JSON, an object whose type is neither "auth" nor
    "chat", and a chat message with no content or with white space only.
    The state stays as it is - no warning, no count, no time stamp - and the
    handler stays in its loop. *)
Theorem ignored_frames (c : ws) (u : user) (now : Z) (st : state) :
  dict_lookup c (users st) = Some u ->
  handle_message c now None st = (Ok Continue, st) /\
  (forall data,
     has_type data "auth" = false -> has_type data "chat" = false ->
     handle_message c now (Some (JDict data)) st = (Ok Continue, st)) /\
  (forall data content,
     has_type data "chat" = true ->
     dict_get data (py "content") (JStr []) = JStr content ->
     strip content = [] ->
     handle_message c now (Some (JDict data)) st = (Ok Continue, st)).
Proof.
  intros Hu. split; [done|]. split.
  - intros data Ha Hc. unfold handle_message. rewrite Ha, Hc.
    unfold bind, gets. by rewrite Hu.
  - intros data content Hc Hd Hs.
    rewrite (handle_message_chat c u) by done.
    unfold handle_chat. by rewrite Hd, Hs.
Qed.

(** X11. A frame that is JSON but not an object, and a chat message whose
    content is not a string, raise an attribute error in the handler; the
    [finally] clause then takes the connection out of the tables, and the
    handler is over. *)
Theorem attribute_error_ends_handler (c : ws) (now : Z) (st : state) :
  (forall v, (forall data, v <> JDict data) ->
             handle_message c now (Some v) st = (Raise AttributeError, st)) /\
  (forall u data,
     dict_lookup c (users st) = Some u ->
     has_type data "chat" = true ->
     (forall s, dict_get data (py "content") (JStr []) <> JStr s) ->
     handle_message c now (Some (JDict data)) st = (Raise AttributeError, st)) /\
  (forall raw,
     handle_message c now raw st = (Raise AttributeError, st) ->
     handle_client_turn c now raw st = (Ok false, snd (remove_client c st)) /\
     (wf st -> c ∈ clients st -> gone c (snd (remove_client c st)))).
Proof.
  split; [|split].
  - intros v Hv. destruct v; try done. by destruct (Hv d).
  - intros u data Hu Hc Hd. rewrite (handle_message_chat c u) by done.
    unfold handle_chat.
    destruct (dict_get data (py "content") (JStr [])) eqn:E; try done.
    by destruct (Hd s).
  - intros raw Hm. split.
    + unfold handle_client_turn. rewrite Hm.
      by destruct (remove_client c st).
    + intros Hwf Hc. by apply remove_client_gone.
Qed.

End Frames.

Lemma not_authenticated_kick_witness :
  @handle_message Demo.services 2%nat 5000000
    (Some (JDict (Demo.chat_data (py "hello")))) Demo.lobby
  = (Ok Return, kicked 2%nat (py "Not authenticated.") Demo.lobby).
Proof.
  apply (@not_authenticated_kick Demo.services); compute_done.
Defined.

Lemma ignored_frames_witness :
  @handle_message Demo.services 1%nat 5000000
    (Some (JDict (Demo.chat_data (py "   ")))) Demo.lobby
  = (Ok Continue, Demo.lobby).
Proof.
  assert (dict_lookup 1%nat (users Demo.lobby) = Some Demo.alice) as Hu
    by compute_done.
  destruct (@ignored_frames Demo.services 1%nat Demo.alice 5000000 Demo.lobby
              Hu) as (_ & _ & Hempty).
  apply (Hempty _ (py "   ")); compute_done.
Defined.

Lemma attribute_error_ends_handler_witness :
  @handle_client_turn Demo.services 1%nat 5000000 (Some (JNum 5)) Demo.lobby
  = (Ok false, snd (remove_client 1%nat Demo.lobby)) /\
  gone 1%nat (snd (remove_client 1%nat Demo.lobby)).
Proof.
  assert (wf Demo.lobby) as Hwf by (split; compute_done).
  assert (1%nat ∈ clients Demo.lobby) as Hc by compute_done.
  destruct (@attribute_error_ends_handler Demo.services 1%nat 5000000
              Demo.lobby) as (Hv & _ & Hturn).
  destruct (Hturn (Some (JNum 5))) as [Ht Hg].
  - apply Hv. intros data. discriminate.
  - split; [exact Ht|]. by apply Hg.
Defined.

(** ** What goes out when all peers are there *)

Lemma recipients_same ex st st' :
  clients st' = clients st -> links st' = links st ->
  recipients ex st' = recipients ex st.
Proof.
  intros Hc Hl. unfold recipients. rewrite Hc.
  apply filter_ext. intros c. unfold is_open. by rewrite Hl.
Qed.

Lemma healthy_same st st' :
  clients st' = clients st -> links st' = links st ->
  (forall c, c ∈ clients st -> links st !! c <> Some Stale) ->
  forall c, c ∈ clients st' -> links st' !! c <> Some Stale.
Proof. intros -> ->. done. Qed.

Section Deliveries.
Context `{Collaborators}.

(** A chat message that passes the empty, length and rate checks has its
    time recorded and its content handled. *)
Lemma handle_message_let_through c u now data content st :
  dict_lookup c (users st) = Some u ->
  has_type data "chat" = true ->
  dict_get data (py "content") (JStr []) = JStr content ->
  truthy (strip content) = true ->
  (length (strip content) <= 200)%nat ->
  (forall last, last_message_times st !! c = Some last ->
                second <= now - last) ->
  handle_message c now (Some (JDict data)) st
  = handle_content c u now (strip content)
      (set_last_message_times <[c := now]> st).
Proof.
  intros Hu Ht Hd Hne Hlen Hslow.
  rewrite (handle_message_chat c u),
    (handle_chat_checked c u now data content) by done.
  destruct (last_message_times st !! c) as [last|] eqn:Hlast; [|done].
  destruct (now - last <? second) eqn:Hf; [|done].
  apply Z.ltb_lt in Hf. specialize (Hslow last eq_refl). lia.
Qed.

(** X12. An ordinary message that the pipeline accepts goes, as a chat
    frame under the identity of its sender and with the time it was read, to
    every registered connection that reports [open], the sender's own among
    them and the ones that have not authenticated too; apart from the time
    stamp of the sender and the trace nothing changes. *)
Theorem safe_chat_delivered (c : ws) (u : user) (now : Z)
    (data : list (str * json)) (content reason : str) (st st2 : state) :
  dict_lookup c (users st) = Some u ->
  has_type data "chat" = true ->
  dict_get data (py "content") (JStr []) = JStr content ->
  truthy (strip content) = true ->
  (length (strip content) <= 200)%nat ->
  (forall last, last_message_times st !! c = Some last ->
                second <= now - last) ->
  startswith (lower (strip content)) (py "/ai ") = false ->
  check_safe (strip content) (set_last_message_times <[c := now]> st)
  = (Ok (true, reason), st2) ->
  (forall c', c' ∈ clients st -> links st !! c' <> Some Stale) ->
  handle_message c now (Some (JDict data)) st
  = (Ok Continue,
     emit_all
       ((fun c' => Sent c' (Chat (strip content) (email u) (name u) (pic u)
                              now)) <$> recipients None st) st2) /\
  (c ∈ clients st -> links st !! c = Some Open -> c ∈ recipients None st).
Proof.
  intros Hu Ht Hd Hne Hlen Hslow Hai Hcs Hh. split.
  - rewrite (handle_message_let_through c u now data content) by done.
    unfold handle_content. rewrite Hai.
    unfold bind at 1. rewrite Hcs. cbn [fst snd].
    unfold bind, broadcast_json, modify.
    assert (clients st2 = clients st /\ links st2 = links st) as [Hc2 Hl2].
    { by destruct (check_safe_state _ _ _ _ Hcs) as [->| ->]. }
    rewrite broadcast_healthy by (by apply (healthy_same st)).
    by rewrite (recipients_same None st st2).
  - intros Hc Ho. unfold recipients. apply list_elem_of_In, filter_In.
    split; [by apply list_elem_of_In|]. unfold is_open. by rewrite Ho.
Qed.

(** X13. A prompt of the command [/ai] that the pipeline accepts is sent to
    the completion model, and the answer goes out as a chat frame of the
    sender "AI" to every registered connection that reports [open]: the
    reply, stripped, behind the robot face; or, when the completion raises,
    the text "Error: " and the exception in its place. *)
Theorem ai_reply_delivered (c : ws) (u : user) (now : Z)
    (data : list (str * json)) (content reason : str) (st st2 : state) :
  dict_lookup c (users st) = Some u ->
  has_type data "chat" = true ->
  dict_get data (py "content") (JStr []) = JStr content ->
  truthy (strip content) = true ->
  (length (strip content) <= 200)%nat ->
  (forall last, last_message_times st !! c = Some last ->
                second <= now - last) ->
  startswith (lower (strip content)) (py "/ai ") = true ->
  check_safe (strip (drop 4 (strip content)))
    (set_last_message_times <[c := now]> st) = (Ok (true, reason), st2) ->
  (forall c', c' ∈ clients st -> links st !! c' <> Some Stale) ->
  let prompt := strip (drop 4 (strip content)) in
  let ai_reply :=
    match chat_completion prompt with
    | inl reply => strip reply
    | inr e => py "Error: " ++ e
    end in
  handle_message c now (Some (JDict data)) st
  = (Ok Continue,
     emit_all
       ((fun c' => Sent c' (Chat (robot_face ++ py " " ++ ai_reply) (py "AI")
                              (py "AI") [] now)) <$> recipients None st)
       (emit (Completion prompt) st2)).
Proof.
  intros Hu Ht Hd Hne Hlen Hslow Hai Hcs Hh prompt ai_reply.
  rewrite (handle_message_let_through c u now data content) by done.
  unfold handle_content. rewrite Hai.
  unfold bind at 1. fold prompt in Hcs |- *. rewrite Hcs. cbn [fst snd].
  unfold bind, broadcast_json, modify. fold ai_reply.
  assert (clients st2 = clients st /\ links st2 = links st) as [Hc2 Hl2].
  { by destruct (check_safe_state _ _ _ _ Hcs) as [->| ->]. }
  rewrite broadcast_healthy
    by (by apply (healthy_same st (emit (Completion prompt) st2))).
  by rewrite (recipients_same None st (emit (Completion prompt) st2)).
Qed.

End Deliveries.

Lemma lobby_healthy :
  forall c', c' ∈ clients Demo.lobby -> links Demo.lobby !! c' <> Some Stale.
Proof.
  assert (clients Demo.lobby = [1; 2]%nat) as -> by compute_done.
  intros c' [->|[->|[]%elem_of_nil]%elem_of_cons]%elem_of_cons; compute_done.
Qed.

Lemma lobby_first_message :
  forall last, last_message_times Demo.lobby !! 1%nat = Some last ->
               second <= 5000000 - last.
Proof. intros last Hl. vm_compute in Hl. discriminate. Qed.

Lemma safe_chat_delivered_witness :
  let s1 := set_last_message_times <[1%nat := 5000000]> Demo.lobby in
  @handle_message Demo.services 1%nat 5000000
    (Some (JDict (Demo.chat_data (py " hello there ")))) Demo.lobby
  = (Ok Continue,
     emit_all
       [Sent 1%nat (Chat (py "hello there") (py "alice@x.org")
                      (py "alice@x.org") [] 5000000);
        Sent 2%nat (Chat (py "hello there") (py "alice@x.org")
                      (py "alice@x.org") [] 5000000)]
       (emit (HfPost (py "hello there")) s1)).
Proof.
  intros s1.
  destruct (@safe_chat_delivered Demo.services 1%nat Demo.alice 5000000
              (Demo.chat_data (py " hello there ")) (py " hello there ")
              (py "OK") Demo.lobby (emit (HfPost (py "hello there")) s1))
    as [Hm _].
  - compute_done.
  - compute_done.
  - compute_done.
  - compute_done.
  - vm_compute. lia.
  - exact lobby_first_message.
  - compute_done.
  - compute_done.
  - exact lobby_healthy.
  - rewrite Hm. compute_done.
Defined.

Lemma ai_reply_delivered_witness :
  let s1 := set_last_message_times <[1%nat := 5000000]> Demo.lobby in
  let reply := Chat (robot_face ++ py " Sure.") (py "AI") (py "AI") []
                 5000000 in
  @handle_message Demo.services 1%nat 5000000
    (Some (JDict (Demo.chat_data (py "/AI what is up? ")))) Demo.lobby
  = (Ok Continue,
     emit_all [Sent 1%nat reply; Sent 2%nat reply]
       (emit (Completion (py "what is up?"))
          (emit (HfPost (py "what is up?")) s1))).
Proof.
  intros s1 reply.
  rewrite (@ai_reply_delivered Demo.services 1%nat Demo.alice 5000000
             (Demo.chat_data (py "/AI what is up? ")) (py "/AI what is up? ")
             (py "OK") Demo.lobby (emit (HfPost (py "what is up?")) s1)).
  - compute_done.
  - compute_done.
  - compute_done.
  - compute_done.
  - compute_done.
  - vm_compute. lia.
  - exact lobby_first_message.
  - compute_done.
  - compute_done.
  - exact lobby_healthy.
Defined.

Section Welcome.
Context `{Collaborators}.

(** X14. An [auth] frame whose token verifies to an e-mail that is neither
    banned nor active is accepted: the connection gets the identity of the
    token and both its counts at zero; every registered connection that
    reports [open] is sent the notice "<name> joined the chat!" and then
    the presence list, the new user in it; and the connection itself is sent
    the welcome. *)
Theorem auth_accepted (c : ws) (now : Z) (data : list (str * json))
    (u : user) (st : state) :
  has_type data "auth" = true ->
  verify_google_token (dict_get data (py "token") JNull) = Some u ->
  truthy (email u) = true ->
  email u ∉ banned_emails st ->
  email u ∉ (email ∘ snd) <$> users st ->
  links st !! c = Some Open ->
  (forall c', c' ∈ clients st -> links st !! c' <> Some Stale) ->
  let s1 := set_rate_limit_counts <[c := 0%nat]>
              (set_unsafe_counts <[c := 0%nat]>
                 (set_users (dict_set c u) st)) in
  handle_message c now (Some (JDict data)) st
  = (Ok Continue,
     emit (Sent c (System (check_mark ++ py " Connected to SafeTalk")))
       (emit_all
          (((fun c' => Sent c' (System (name u ++ py " joined the chat!")))
              <$> recipients None st) ++
           ((fun c' => Sent c' (UserList (snd <$> dict_set c u (users st))))
              <$> recipients None st)) s1)).
Proof.
  intros Ht Hv He Hb Ha Ho Hh s1.
  rewrite handle_message_auth by done. unfold handle_auth.
  rewrite Hv, He. cbn [negb].
  unfold bind at 1. unfold gets at 1.
  rewrite bool_decide_eq_false_2 by done.
  unfold bind at 1. unfold gets at 1.
  rewrite bool_decide_eq_false_2 by done.
  unfold bind at 1. unfold modify at 1.
  unfold bind at 1. unfold modify at 1.
  unfold bind at 1. unfold modify at 1. fold s1.
  unfold bind at 1. unfold broadcast_system, broadcast_json, modify at 1.
  rewrite broadcast_healthy by exact Hh.
  unfold bind at 1. unfold broadcast_user_list.
  unfold bind at 1. unfold gets at 1. unfold broadcast_json, modify.
  rewrite broadcast_healthy by exact Hh.
  rewrite emit_all_app.
  unfold bind at 1. rewrite send_open by exact Ho.
  reflexivity.
Qed.

End Welcome.

Lemma auth_accepted_witness :
  let s1 := set_rate_limit_counts <[2%nat := 0%nat]>
              (set_unsafe_counts <[2%nat := 0%nat]>
                 (set_users (dict_set 2%nat Demo.bob) Demo.lobby)) in
  @handle_message Demo.services 2%nat 5000000 (Demo.auth "bob@x.org")
    Demo.lobby
  = (Ok Continue,
     emit (Sent 2%nat (System (check_mark ++ py " Connected to SafeTalk")))
       (emit_all
          ([Sent 1%nat (System (py "bob@x.org joined the chat!"));
            Sent 2%nat (System (py "bob@x.org joined the chat!"))] ++
           [Sent 1%nat (UserList [Demo.alice; Demo.bob]);
            Sent 2%nat (UserList [Demo.alice; Demo.bob])]) s1)).
Proof.
  intros s1. unfold Demo.auth.
  rewrite (@auth_accepted Demo.services 2%nat 5000000
             (Demo.auth_data "bob@x.org") Demo.bob Demo.lobby).
  - compute_done.
  - compute_done.
  - compute_done.
  - compute_done.
  - compute_done.
  - compute_done.
  - compute_done.
  - exact lobby_healthy.
Defined.

(** ** Properties the handler keeps *)

Section Keeps.
Variable P : state -> Prop.

Lemma keeps_ret {A} (a : A) : keeps P (ret a).
Proof. by intros st. Qed.

Lemma keeps_raise {A} (e : exn) : keeps P (@raise A e).
Proof. by intros st. Qed.

Lemma keeps_gets {A} (f : state -> A) : keeps P (gets f).
Proof. by intros st. Qed.

Lemma keeps_modify (f : state -> state) :
  (forall st, P st -> P (f st)) -> keeps P (modify f).
Proof. intros Hf st. apply Hf. Qed.

Lemma keeps_bind {A B} (m : M A) (k : A -> M B) :
  keeps P m -> (forall a, keeps P (k a)) -> keeps P (bind m k).
Proof.
  intros Hm Hk st HP. unfold bind. specialize (Hm st HP).
  destruct (m st) as [[a|e] st']; [by apply Hk|done].
Qed.

(** The result of [gets] may be used to decide how to go on. *)
Lemma keeps_bind_gets {A B} (f : state -> A) (k : A -> M B) :
  (forall st, P st -> P (snd (k (f st) st))) -> keeps P (bind (gets f) k).
Proof. intros Hk st HP. by apply Hk. Qed.

End Keeps.

(** What the handler of the connection [c] does to the state, move by move.
    A property that survives each move survives every turn of the handler. *)
Section HandlerKeeps.
Context `{Collaborators}.
Variable P : state -> Prop.
Variable c : ws.
Hypothesis P_emit : forall e st, P st -> P (emit e st).
Hypothesis P_close : forall st, P st -> P (set_links <[c := Shut]> st).
Hypothesis P_broadcast : forall depth obj ex st,
  P st -> P (broadcast_json_depth depth obj ex st).
Hypothesis P_unsafe : forall n st,
  P st -> P (set_unsafe_counts <[c := n]> st).
Hypothesis P_rate : forall n st,
  P st -> P (set_rate_limit_counts <[c := n]> st).
Hypothesis P_last : forall t st,
  P st -> P (set_last_message_times <[c := t]> st).
Hypothesis P_ban : forall e st,
  P st -> P (set_banned_emails (fun s => {[e]} ∪ s) st).
Hypothesis P_auth : forall u st,
  truthy (email u) = true ->
  email u ∉ banned_emails st ->
  email u ∉ (email ∘ snd) <$> users st ->
  P st -> P (signed_in c u st).

Lemma keeps_send msg : keeps P (send c msg).
Proof.
  intros st HP.
  destruct (send_cases c msg st) as [[_ ->]|[[Hs ->]|[_ ->]]]; simpl; auto.
Qed.

Lemma keeps_close : keeps P (close c).
Proof. intros st HP. unfold close, modify. simpl. auto. Qed.

Lemma keeps_broadcast_json obj ex : keeps P (broadcast_json obj ex).
Proof. intros st HP. unfold broadcast_json, modify. simpl. auto. Qed.

Lemma keeps_check_safe text : keeps P (check_safe text).
Proof.
  intros st HP. destruct (check_safe_run text st) as [v [-> | ->]]; simpl; auto.
Qed.

Lemma keeps_increment_unsafe :
  keeps P (increment unsafe_counts set_unsafe_counts c).
Proof.
  intros st HP. unfold increment. destruct (unsafe_counts st !! c); simpl; auto.
Qed.

Lemma keeps_increment_rate :
  keeps P (increment rate_limit_counts set_rate_limit_counts c).
Proof.
  intros st HP. unfold increment.
  destruct (rate_limit_counts st !! c); simpl; auto.
Qed.

Lemma keeps_kick notice :
  keeps P (send c (Kick notice) >> close c >> ret Return)%M.
Proof.
  apply keeps_bind; [apply keeps_send|intros _].
  apply keeps_bind; [apply keeps_close|intros _]. apply keeps_ret.
Qed.

Lemma keeps_ban e : keeps P (ban e).
Proof. intros st HP. unfold ban, modify. simpl. auto. Qed.

Lemma keeps_log_flagged who message reason :
  keeps P (log_flagged who message reason).
Proof. intros st HP. unfold log_flagged, modify. simpl. auto. Qed.

Lemma keeps_handle_content u now msg : keeps P (handle_content c u now msg).
Proof.
  unfold handle_content. destruct (startswith _ _).
  - apply keeps_bind; [apply keeps_check_safe|intros verdict].
    destruct (fst verdict).
    + apply keeps_bind; [apply keeps_modify; auto|intros _].
      apply keeps_bind; [apply keeps_broadcast_json|intros _].
      apply keeps_ret.
    + apply keeps_bind; [apply keeps_increment_unsafe|intros n].
      apply keeps_bind; [apply keeps_log_flagged|intros _].
      apply keeps_bind; [apply keeps_send|intros _].
      destruct (3 <=? n)%nat; [|apply keeps_ret].
      apply keeps_bind; [apply keeps_ban|intros _].
      apply keeps_bind; [apply keeps_send|intros _].
      apply keeps_bind; [apply keeps_close|intros _]. apply keeps_ret.
  - apply keeps_bind; [apply keeps_check_safe|intros verdict].
    destruct (fst verdict).
    + apply keeps_bind; [apply keeps_broadcast_json|intros _].
      apply keeps_ret.
    + apply keeps_bind; [apply keeps_increment_unsafe|intros n].
      apply keeps_bind; [apply keeps_log_flagged|intros _].
      apply keeps_bind; [apply keeps_send|intros _].
      destruct (3 <=? n)%nat; [|apply keeps_ret].
      apply keeps_bind; [apply keeps_ban|intros _].
      apply keeps_bind; [apply keeps_send|intros _].
      apply keeps_bind; [apply keeps_close|intros _]. apply keeps_ret.
Qed.

Lemma keeps_handle_chat u now data : keeps P (handle_chat c u now data).
Proof.
  unfold handle_chat.
  destruct (dict_get data _ _); try apply keeps_raise.
  destruct (negb _); [apply keeps_ret|].
  destruct (_ <? _)%nat.
  { apply keeps_bind; [apply keeps_send|intros _]. apply keeps_ret. }
  apply keeps_bind; [apply keeps_gets|intros last].
  destruct (match last with Some _ => _ | None => _ end).
  - apply keeps_bind; [apply keeps_increment_rate|intros n].
    apply keeps_bind; [apply keeps_send|intros _].
    destruct (5 <=? n)%nat; [|apply keeps_ret].
    apply keeps_bind; [apply keeps_ban|intros _]. apply keeps_kick.
  - apply keeps_bind; [apply keeps_modify; auto|intros _].
    apply keeps_handle_content.
Qed.

Lemma keeps_handle_auth data : keeps P (handle_auth c data).
Proof.
  unfold handle_auth.
  destruct (verify_google_token _) as [u|]; [|apply keeps_kick].
  destruct (truthy (email u)) eqn:He; cbn [negb]; [|apply keeps_kick].
  intros st HP. unfold bind at 1. unfold gets at 1.
  destruct (bool_decide (email u ∈ banned_emails st)) eqn:Hb;
    [by apply keeps_kick|].
  unfold bind at 1. unfold gets at 1.
  destruct (bool_decide (email u ∈ (email ∘ snd) <$> users st)) eqn:Ha;
    [by apply keeps_kick|].
  apply bool_decide_eq_false in Hb, Ha.
  unfold bind at 1. unfold modify at 1.
  unfold bind at 1. unfold modify at 1.
  unfold bind at 1. unfold modify at 1.
  fold (signed_in c u st).
  apply (keeps_bind P); [apply keeps_broadcast_json|intros _|by apply P_auth].
  apply keeps_bind.
  { apply keeps_bind; [apply keeps_gets|intros ?]. apply keeps_broadcast_json. }
  intros _. apply keeps_bind; [apply keeps_send|intros _]. apply keeps_ret.
Qed.

(** The body of the loop keeps [P]. *)
Lemma keeps_handle_message now raw : keeps P (handle_message c now raw).
Proof.
  unfold handle_message. destruct raw as [v|]; [|apply keeps_ret].
  destruct v; try apply keeps_raise.
  destruct (has_type d "auth"); [apply keeps_handle_auth|].
  apply keeps_bind; [apply keeps_gets|intros u].
  destruct u as [u|]; [|apply keeps_kick].
  destruct (has_type d "chat"); [apply keeps_handle_chat|apply keeps_ret].
Qed.

(** ... and so does a turn with its [finally] clause, when removing [c]
    keeps [P]. *)
Lemma keeps_handle_client_turn now raw :
  (forall st, P st -> P (snd (remove_client c st))) ->
  keeps P (handle_client_turn c now raw).
Proof.
  intros Hrm st HP. unfold handle_client_turn.
  pose proof (keeps_handle_message now raw st HP) as HP'.
  destruct (handle_message c now raw st) as [[[]|e] st']; simpl in *;
    [done| |].
  - specialize (Hrm st' HP'). by destruct (remove_client c st').
  - specialize (Hrm st' HP'). by destruct (remove_client c st').
Qed.

End HandlerKeeps.

(** ** The tables fit together *)

Lemma dict_lookup_set_ne {V} (c c' : ws) (v : V) (d : list (ws * V)) :
  c' <> c -> dict_lookup c' (dict_set c v d) = dict_lookup c' d.
Proof.
  intros Hne. induction d as [|[k w] d IH]; simpl.
  - by destruct (decide (c = c')); [congruence|].
  - destruct (decide (k = c)) as [->|]; simpl.
    + by destruct (decide (c = c')); [congruence|].
    + by rewrite IH.
Qed.

Lemma dict_set_keys {V} (c k : ws) (v : V) (d : list (ws * V)) :
  k ∈ (dict_set c v d).*1 <-> k = c \/ k ∈ d.*1.
Proof.
  induction d as [|[k' w] d IH]; simpl; [set_solver|].
  destruct (decide (k' = c)) as [->|]; simpl; set_solver.
Qed.

Lemma dict_set_keys_NoDup {V} (c : ws) (v : V) (d : list (ws * V)) :
  NoDup d.*1 -> NoDup (dict_set c v d).*1.
Proof.
  induction d as [|[k w] d IH]; simpl.
  - intros _. apply NoDup_singleton.
  - intros [Hk Hd]%NoDup_cons. destruct (decide (k = c)) as [->|Hne]; simpl.
    + by apply NoDup_cons.
    + apply NoDup_cons. split; [|by apply IH].
      rewrite dict_set_keys. intros [?|?]; done.
Qed.

Lemma dict_set_values {V B} (f : V -> B) (c : ws) (v : V) (d : list (ws * V))
    (x : B) :
  x ∈ (f ∘ snd) <$> dict_set c v d -> x = f v \/ x ∈ (f ∘ snd) <$> d.
Proof.
  induction d as [|[k w] d IH]; simpl; [set_solver|].
  destruct (decide (k = c)) as [->|]; simpl; set_solver.
Qed.

Lemma dict_set_values_NoDup {V B} (f : V -> B) (c : ws) (v : V)
    (d : list (ws * V)) :
  NoDup ((f ∘ snd) <$> d) -> f v ∉ (f ∘ snd) <$> d ->
  NoDup ((f ∘ snd) <$> dict_set c v d).
Proof.
  induction d as [|[k w] d IH]; simpl.
  - intros _ _. apply NoDup_singleton.
  - intros [Hw Hd]%NoDup_cons Hv.
    apply not_elem_of_cons in Hv as [Hvw Hv].
    destruct (decide (k = c)) as [->|Hne]; simpl.
    + by apply NoDup_cons.
    + apply NoDup_cons. split; [|by apply IH].
      intros [?|?]%dict_set_values; [congruence|done].
Qed.

Lemma consistent_trace st t : consistent st -> consistent (emit_all t st).
Proof. done. Qed.

Lemma consistent_emit e st : consistent st -> consistent (emit e st).
Proof. done. Qed.

Lemma consistent_links c l st :
  consistent st -> consistent (set_links <[c := l]> st).
Proof.
  intros (Hwf & He & Hn & Hl). repeat split; try apply Hwf; try done;
    try apply Hn; try done.
  intros c' Hc'. simpl. destruct (decide (c = c')) as [->|].
  - rewrite lookup_insert_eq. eauto.
  - rewrite lookup_insert_ne by done. by apply Hl.
Qed.

Lemma consistent_forget c st : consistent st -> consistent (forget c st).
Proof.
  intros ([Hc Hu] & He & Hn & Hl). unfold forget.
  split; [split|split; [|split]]; simpl.
  - eapply sublist_NoDup; [exact Hc|apply list_remove_sublist].
  - eapply sublist_NoDup; [exact Hu|]. apply fmap_sublist, dict_del_sublist.
  - eapply sublist_NoDup; [exact He|]. apply fmap_sublist, dict_del_sublist.
  - intros c' Hc'. destruct (decide (c' = c)) as [->|Hne].
    + rewrite dict_lookup_del_eq in Hc' by done. by destruct Hc'.
    + rewrite dict_lookup_del_ne in Hc' by done.
      rewrite !lookup_delete_ne by done. by apply Hn.
  - intros c' Hc'. apply Hl.
    eapply elem_of_sublist; [exact Hc'|apply list_remove_sublist].
Qed.

Lemma consistent_unsafe c n st :
  consistent st -> consistent (set_unsafe_counts <[c := n]> st).
Proof.
  intros (Hwf & He & Hn & Hl). split; [done|]. split; [done|].
  split; [|done]. intros c' Hc'. simpl.
  destruct (Hn c' Hc') as [H1 H2]. split; [|done].
  destruct (decide (c = c')) as [->|].
  - rewrite lookup_insert_eq. eauto.
  - by rewrite lookup_insert_ne.
Qed.

Lemma consistent_rate c n st :
  consistent st -> consistent (set_rate_limit_counts <[c := n]> st).
Proof.
  intros (Hwf & He & Hn & Hl). split; [done|]. split; [done|].
  split; [|done]. intros c' Hc'. simpl.
  destruct (Hn c' Hc') as [H1 H2]. split; [done|].
  destruct (decide (c = c')) as [->|].
  - rewrite lookup_insert_eq. eauto.
  - by rewrite lookup_insert_ne.
Qed.

Lemma consistent_last c t st :
  consistent st -> consistent (set_last_message_times <[c := t]> st).
Proof. done. Qed.

Lemma consistent_ban e st :
  consistent st -> consistent (set_banned_emails (fun s => {[e]} ∪ s) st).
Proof. done. Qed.

Lemma consistent_signed_in c u st :
  email u ∉ (email ∘ snd) <$> users st ->
  consistent st -> consistent (signed_in c u st).
Proof.
  intros Hu ([Hc Hk] & He & Hn & Hl). unfold signed_in.
  split; [split|split; [|split]]; simpl.
  - done.
  - by apply dict_set_keys_NoDup.
  - by apply dict_set_values_NoDup.
  - intros c' Hc'. destruct (decide (c = c')) as [->|Hne].
    + rewrite !lookup_insert_eq. eauto.
    + rewrite !lookup_insert_ne by done.
      rewrite dict_lookup_set_ne in Hc' by done. by apply Hn.
  - done.
Qed.

Lemma consistent_broadcast depth obj ex st :
  consistent st -> consistent (broadcast_json_depth depth obj ex st).
Proof.
  intros Hst.
  apply (broadcast_preserves_within consistent (fun _ => True)).
  - apply consistent_emit.
  - intros c st' _. apply consistent_links.
  - intros c st' _. apply consistent_forget.
  - done.
Qed.

Lemma consistent_remove_client c st :
  consistent st -> consistent (snd (remove_client c st)).
Proof.
  intros Hst. unfold remove_client, modify. cbn [snd].
  apply (remove_client_preserves_within consistent (fun _ => True)).
  - apply consistent_emit.
  - intros c' st' _. apply consistent_links.
  - intros c' st' _. apply consistent_forget.
  - done.
  - done.
Qed.

Section ConsistentTurn.
Context `{Collaborators}.

Lemma consistent_turn c now raw st :
  consistent st -> consistent (snd (handle_client_turn c now raw st)).
Proof.
  apply (keeps_handle_client_turn consistent c).
  - apply consistent_emit.
  - apply consistent_links.
  - apply consistent_broadcast.
  - apply consistent_unsafe.
  - apply consistent_rate.
  - apply consistent_last.
  - apply consistent_ban.
  - intros u st' _ _. apply consistent_signed_in.
  - apply consistent_remove_client.
Qed.

Lemma consistent_step sv i :
  consistent (mem sv) -> consistent (mem (step sv i)).
Proof.
  intros Hst. destruct i as [c|c now raw|c|c]; simpl.
  - destruct (links (mem sv) !! c) eqn:Hl; [done|]. simpl.
    destruct Hst as ([Hc Hk] & He & Hn & Hlk).
    split; [split|split; [|split]]; simpl; try done.
    + apply NoDup_app. split; [done|]. split; [|apply NoDup_singleton].
      intros c' Hc' Heq%list_elem_of_singleton. subst c'.
      destruct (Hlk c Hc') as [? ?]. congruence.
    + intros c' [Hc'|Heq%list_elem_of_singleton]%elem_of_app.
      * destruct (decide (c = c')) as [->|].
        -- rewrite lookup_insert_eq. eauto.
        -- rewrite lookup_insert_ne by done. by apply Hlk.
      * subst c'. rewrite lookup_insert_eq. eauto.
  - destruct (bool_decide _); [|done].
    pose proof (consistent_turn c now raw (mem sv) Hst) as Ht.
    destruct (handle_client_turn c now raw (mem sv)) as [[[]|e] st'];
      simpl in *; try done; by apply consistent_links.
  - destruct (links (mem sv) !! c) as [[]|]; try done.
    simpl. by apply consistent_links.
  - destruct (bool_decide _); [|done]. simpl.
    by apply consistent_links, consistent_remove_client.
Qed.

Lemma consistent_foldl inputs sv :
  consistent (mem sv) -> consistent (mem (foldl step sv inputs)).
Proof.
  revert sv. induction inputs as [|i inputs IH]; intros sv Hst; simpl; [done|].
  by apply IH, consistent_step.
Qed.

Lemma consistent_initial : consistent initial.
Proof.
  split; [split|split; [|split]]; simpl.
  - apply NoDup_nil_2.
  - apply NoDup_nil_2.
  - apply NoDup_nil_2.
  - intros c [? ?]. done.
  - intros c Hc. by apply elem_of_nil in Hc.
Qed.

(** X15. However connections come, talk and go, the tables fit together:
    no connection is registered twice nor has two entries in [users], no
    e-mail is held by two entries of [users] at once, every entry of [users]
    has its two counts, and every registered connection has a link. *)
Theorem reachable_consistent (inputs : list input) :
  consistent (mem (run inputs)).
Proof. apply consistent_foldl, consistent_initial. Qed.

End ConsistentTurn.

(** ** Bans stay, handlers clean up *)

Lemma remove_client_banned c st :
  banned_emails (snd (remove_client c st)) = banned_emails st.
Proof.
  unfold remove_client, modify, remove_client_with. cbn [snd].
  destruct (decide _); [|done]. cbn zeta.
  rewrite (ev_banned _ _ (broadcast_evolves _ _ _ _)).
  destruct (dict_lookup c (users st)); [|done].
  by rewrite (ev_banned _ _ (broadcast_evolves _ _ _ _)).
Qed.

Section Bans.
Context `{Collaborators}.

Lemma turn_keeps_bans c now raw st :
  banned_emails st ⊆ banned_emails (snd (handle_client_turn c now raw st)).
Proof.
  apply (keeps_handle_client_turn
           (fun st' => banned_emails st ⊆ banned_emails st') c);
    try done.
  - intros depth obj ex st' Hst'.
    by rewrite (ev_banned _ _ (broadcast_evolves _ _ _ _)).
  - intros e st' Hst'. simpl. set_solver.
  - intros st' Hst'. by rewrite remove_client_banned.
Qed.

Lemma step_keeps_bans sv i :
  banned_emails (mem sv) ⊆ banned_emails (mem (step sv i)).
Proof.
  destruct i as [c|c now raw|c|c]; simpl.
  - by destruct (links (mem sv) !! c).
  - destruct (bool_decide _); [|done].
    pose proof (turn_keeps_bans c now raw (mem sv)) as Ht.
    by destruct (handle_client_turn c now raw (mem sv)) as [[[]|e] st'].
  - by destruct (links (mem sv) !! c) as [[]|].
  - destruct (bool_decide _); [|done].
    change (banned_emails (mem sv)
            ⊆ banned_emails (snd (remove_client c (mem sv)))).
    by rewrite remove_client_banned.
Qed.

(** X16. There is no way back from a ban: an e-mail that is in the ban set
    is in it after every further connection, frame, loss and end. *)
Theorem ban_is_permanent (inputs more : list input) (e : str) :
  e ∈ banned_emails (mem (run inputs)) ->
  e ∈ banned_emails (mem (run (inputs ++ more))).
Proof.
  unfold run. rewrite foldl_app. generalize (foldl step boot inputs).
  induction more as [|i more IH]; intros sv He; simpl; [done|].
  apply IH. by apply step_keeps_bans.
Qed.

(** X17. A turn of the handler that leaves the loop, by [return] or by an
    exception, leaves nothing of the connection behind: it is out of
    [clients], [users] and the three tables. (For a registered connection
    whose peer has not vanished unnoticed.) *)
Theorem handler_exit_cleans_up (c : ws) (now : Z) (raw : option json)
    (st : state) :
  wf st -> c ∈ clients st -> links st !! c <> Some Stale ->
  fst (handle_client_turn c now raw st) = Ok false ->
  gone c (snd (handle_client_turn c now raw st)).
Proof.
  intros Hwf Hc Hl.
  assert (keeps (fun st' => wf st' /\ c ∈ clients st' /\
                            links st' !! c <> Some Stale)
            (handle_message c now raw)) as Hk.
  { apply keeps_handle_message; try done.
    - intros st' (Hwf' & Hc' & Hl'). split; [done|]. split; [done|].
      simpl. by rewrite lookup_insert_eq.
    - intros depth obj ex st' (Hwf' & Hc' & Hl').
      pose proof (broadcast_evolves depth obj ex st') as Hev.
      destruct (evolves_fresh _ _ c Hev Hl') as [(_&_&_&_&Hin) Hlk].
      split; [by eapply wf_evolves|]. split; [by apply Hin|congruence].
    - intros u st' _ _ _ ([Hn Hu] & Hc' & Hl'). split; [|done].
      split; [done|]. simpl. by apply dict_set_keys_NoDup. }
  specialize (Hk st (conj Hwf (conj Hc Hl))).
  unfold handle_client_turn.
  destruct (handle_message c now raw st) as [[[]|e] st'] eqn:Hm;
    cbn [fst snd] in *; [done| |].
  - intros _. destruct Hk as (Hwf' & Hc' & _).
    pose proof (remove_client_gone c st' Hwf' Hc') as Hg.
    by destruct (remove_client c st').
  - intros _. destruct Hk as (Hwf' & Hc' & _).
    pose proof (remove_client_gone c st' Hwf' Hc') as Hg.
    by destruct (remove_client c st').
Qed.

End Bans.

Lemma ban_is_permanent_witness :
  py "alice@x.org" ∈
    banned_emails
      (mem (@run Demo.services
              ([Connect 1; Frame 1 0 (Demo.auth "alice@x.org");
                Frame 1 1000000 (Demo.chat "darn");
                Frame 1 2000000 (Demo.chat "oh darn");
                Frame 1 3000000 (Demo.chat "darn again")] ++
               [Connect 2; Frame 2 9000000 (Demo.auth "bob@x.org");
                Frame 2 9500000 (Demo.chat "hello"); Ended 2]))).
Proof.
  apply (@ban_is_permanent Demo.services). compute_done.
Defined.

Lemma handler_exit_cleans_up_witness :
  gone 2%nat
    (snd (@handle_client_turn Demo.services 2%nat 5000000
            (Demo.chat "hello") Demo.lobby)).
Proof.
  apply (@handler_exit_cleans_up Demo.services).
  - split; compute_done.
  - compute_done.
  - compute_done.
  - compute_done.
Defined.

(** ** No key is ever missing *)

Section Quiet.
Context `{Collaborators}.

Lemma quiet_ret {A} (a : A) : quiet (ret a).
Proof. by intros st st'. Qed.

Lemma quiet_gets {A} (f : state -> A) : quiet (gets f).
Proof. by intros st st'. Qed.

Lemma quiet_modify f : quiet (modify f).
Proof. by intros st st'. Qed.

Lemma quiet_bind {A B} (m : M A) (k : A -> M B) :
  quiet m -> (forall a, quiet (k a)) -> quiet (bind m k).
Proof.
  intros Hm Hk st st'. unfold bind.
  destruct (m st) as [[a|e] s1] eqn:E; [apply Hk|].
  intros [= -> ->]. by apply (Hm st st').
Qed.

Lemma quiet_send c msg : quiet (send c msg).
Proof.
  intros st st'.
  by destruct (send_cases c msg st) as [[_ ->]|[[_ ->]|[_ ->]]].
Qed.

Lemma quiet_check_safe text : quiet (check_safe text).
Proof.
  intros st st'. by destruct (check_safe_run text st) as [v [-> | ->]].
Qed.

Lemma quiet_kick c notice :
  quiet (send c (Kick notice) >> close c >> ret Return)%M.
Proof.
  apply quiet_bind; [apply quiet_send|intros _].
  apply quiet_bind; [apply quiet_modify|intros _]. apply quiet_ret.
Qed.

Lemma quiet_kick_continue c notice :
  quiet (send c (Kick notice) >> close c >> ret Continue)%M.
Proof.
  apply quiet_bind; [apply quiet_send|intros _].
  apply quiet_bind; [apply quiet_modify|intros _]. apply quiet_ret.
Qed.

Lemma quiet_handle_auth c data : quiet (handle_auth c data).
Proof.
  unfold handle_auth.
  destruct (verify_google_token _) as [u|]; [|apply quiet_kick].
  destruct (negb _); [apply quiet_kick|].
  apply quiet_bind; [apply quiet_gets|intros banned].
  destruct banned; [apply quiet_kick|].
  apply quiet_bind; [apply quiet_gets|intros active].
  destruct active; [apply quiet_kick|].
  do 4 (apply quiet_bind; [apply quiet_modify|intros _]).
  apply quiet_bind.
  { unfold broadcast_user_list.
    apply quiet_bind; [apply quiet_gets|intros ?]. apply quiet_modify. }
  intros _. apply quiet_bind; [apply quiet_send|intros _]. apply quiet_ret.
Qed.

(** What follows the count of a content violation. *)
Lemma quiet_after_flag c who text reason notice n (last : M control) :
  quiet last ->
  quiet (log_flagged who text reason >> send c (Warning notice) >>
         if (3 <=? n)%nat then last else ret Continue)%M.
Proof.
  intros Hlast.
  apply quiet_bind; [apply quiet_modify|intros _].
  apply quiet_bind; [apply quiet_send|intros _].
  destruct (3 <=? n)%nat; [done|apply quiet_ret].
Qed.

Lemma quiet_handle_content c u now msg st :
  is_Some (unsafe_counts st !! c) -> forall st',
  handle_content c u now msg st <> (Raise KeyError, st').
Proof.
  intros [n Hn] st'. unfold handle_content.
  destruct (startswith _ _).
  - destruct (check_safe_run (strip (drop 4 msg)) st) as [v [E|E]];
      unfold bind at 1; rewrite E; (destruct (fst v);
      [ apply quiet_bind; [apply quiet_modify|intros _];
        apply quiet_bind; [apply quiet_modify|intros _]; apply quiet_ret
      | unfold bind at 1;
        rewrite (increment_some _ _ _ n) by exact Hn;
        apply quiet_after_flag;
        apply quiet_bind; [apply quiet_modify|intros _];
        apply quiet_kick_continue ]).
  - destruct (check_safe_run msg st) as [v [E|E]];
      unfold bind at 1; rewrite E; (destruct (fst v);
      [ apply quiet_bind; [apply quiet_modify|intros _]; apply quiet_ret
      | unfold bind at 1;
        rewrite (increment_some _ _ _ n) by exact Hn;
        apply quiet_after_flag;
        apply quiet_bind; [apply quiet_modify|intros _];
        apply quiet_kick ]).
Qed.

(** X18. In a state whose tables fit together - every state the server can
    be in - the handler never fails on a missing key: the counts it steps up
    are there. What it can raise is the closed connection of a failed send
    and the attribute error of a frame of the wrong shape. *)
Theorem no_key_error (c : ws) (now : Z) (raw : option json) (st : state) :
  consistent st ->
  forall st', handle_message c now raw st <> (Raise KeyError, st').
Proof.
  intros (_ & _ & Hn & _) st'. unfold handle_message.
  destruct raw as [v|]; [|done]. destruct v; try done.
  destruct (has_type d "auth"); [apply quiet_handle_auth|].
  unfold bind at 1. unfold gets at 1.
  destruct (dict_lookup c (users st)) as [u|] eqn:Hu; [|apply quiet_kick].
  destruct (Hn c) as [[n1 Hn1] [n2 Hn2]]; [by rewrite Hu|].
  destruct (has_type d "chat"); [|done].
  unfold handle_chat.
  destruct (dict_get d (py "content") (JStr [])); try done.
  destruct (negb _); [done|].
  destruct (_ <? _)%nat.
  { apply quiet_bind; [apply quiet_send|intros _]. apply quiet_ret. }
  unfold bind at 1. unfold gets at 1.
  destruct (match last_message_times st !! c with
            | Some _ => _ | None => _ end).
  - unfold bind at 1. rewrite (increment_some _ _ _ n2) by exact Hn2.
    apply quiet_bind; [apply quiet_send|intros _].
    destruct (5 <=? S n2)%nat; [|apply quiet_ret].
    apply quiet_bind; [apply quiet_modify|intros _]. apply quiet_kick.
  - unfold bind at 1. unfold modify at 1.
    apply quiet_handle_content. simpl. eauto.
Qed.

End Quiet.

Lemma no_key_error_witness :
  fst (@handle_message Demo.services 1%nat 3000000 (Demo.chat "darn again")
         Demo.two_strikes) <> Raise KeyError.
Proof.
  intros Hr.
  apply (@no_key_error Demo.services 1%nat 3000000 (Demo.chat "darn again")
           Demo.two_strikes
           (@consistent_foldl Demo.services _ boot consistent_initial)
           (snd (@handle_message Demo.services 1%nat 3000000
                   (Demo.chat "darn again") Demo.two_strikes))).
  rewrite <- Hr. apply surjective_pairing.
Defined.

(** ** The prompt of the command *)

Lemma lstrip_head (s : str) :
  lstrip s = [] \/ exists x r, lstrip s = x :: r /\ isspace x = false.
Proof.
  induction s as [|c s IH]; simpl; [by left|].
  destruct (isspace c) eqn:Hc; [done|]. right. eauto.
Qed.

Lemma lstrip_snoc (l : str) (x : N) :
  isspace x = false -> exists l', lstrip (l ++ [x]) = l' ++ [x].
Proof.
  intros Hx. induction l as [|c l IH]; simpl.
  - rewrite Hx. by exists [].
  - destruct (isspace c); [done|]. by exists (c :: l).
Qed.

(** A stripped string that is not empty ends with a character that is not
    white space. *)
Lemma strip_last (s : str) :
  strip s <> [] -> exists m x, strip s = m ++ [x] /\ isspace x = false.
Proof.
  unfold strip, rstrip.
  destruct (lstrip_head (reverse (lstrip s))) as [->|(x & r & -> & Hx)];
    [done|].
  intros _. exists (reverse r), x. by rewrite reverse_cons.
Qed.

Lemma strip_snoc (l : str) (x : N) :
  isspace x = false -> strip (l ++ [x]) <> [].
Proof.
  intros Hx. unfold strip, rstrip.
  destruct (lstrip_snoc l x Hx) as [l' ->].
  rewrite reverse_snoc. simpl. rewrite Hx. rewrite reverse_cons.
  by destruct (reverse (reverse l')).
Qed.

(** X19. The prompt of the command [/ai] is never empty: a stripped message
    that begins with "/ai " (in any case) has something other than white
    space after the prefix, so the text handed to the pipeline and to the
    completion model has at least one character. In particular the bare
    command, with nothing or only blanks behind it, is not a command but an
    ordinary message. *)
Theorem ai_prompt_never_empty (content : str) :
  startswith (lower (strip content)) (py "/ai ") = true ->
  truthy (strip (drop 4 (strip content))) = true.
Proof.
  intros Hai.
  destruct (strip_last content) as (m & x & Hm & Hx).
  { intros E. by rewrite E in Hai. }
  change (py "/ai ") with [47; 97; 105; 32]%N in Hai. unfold lower in Hai.
  destruct (strip content) as [|a [|b [|c0 [|d rest]]]] eqn:E;
    rewrite ?fmap_cons in Hai; cbn [startswith fmap list_fmap] in Hai;
    try (repeat (apply andb_prop in Hai as [_ Hai]); done).
  assert (d = 32%N) as ->.
  { do 3 (apply andb_prop in Hai as [_ Hai]).
    apply andb_prop in Hai as [Hd _]. apply N.eqb_eq in Hd.
    destruct ((65 <=? d) && (d <=? 90))%N eqn:Hu; [|done].
    apply andb_prop in Hu as [Hu _]. apply N.leb_le in Hu. lia. }
  assert (exists r', rest = r' ++ [x]) as [r' ->].
  { assert (last (a :: b :: c0 :: 32%N :: rest) = Some x) as Hl
      by (rewrite Hm; apply last_snoc).
    destruct rest as [|y rest].
    - simpl in Hl. injection Hl as <-. done.
    - change (last (y :: rest) = Some x) in Hl.
      apply last_Some in Hl as [r' ->]. by exists r'. }
  change (drop 4 (a :: b :: c0 :: 32%N :: r' ++ [x])) with (r' ++ [x]).
  pose proof (strip_snoc r' x Hx) as Hs.
  by destruct (strip (r' ++ [x])).
Qed.

Lemma ai_prompt_never_empty_witness :
  truthy (strip (drop 4 (strip (py "  /Ai   tell me a joke  ")))) = true.
Proof.
  apply ai_prompt_never_empty. compute_done.
Defined.

(** ** An entry that nobody removes *)

Section Leftover.
Context `{Collaborators}.

(** X20. [remove_client] forgets a connection only while it is in
    [clients]. When a failed broadcast has already removed a connection and a
    valid [auth] frame of it is still read afterwards, the frame is accepted:
    the connection gets its entry in [users] and the others are told that the
    user joined. The welcome cannot be sent on the closed connection, the
    handler ends, and its [finally] clause removes nothing, the connection
    being out of [clients]: the entry stays in [users]. *)
Theorem auth_after_removal_leaves_entry (c : ws) (now : Z)
    (data : list (str * json)) (u : user) (st : state) :
  has_type data "auth" = true ->
  verify_google_token (dict_get data (py "token") JNull) = Some u ->
  truthy (email u) = true ->
  email u ∉ banned_emails st ->
  email u ∉ (email ∘ snd) <$> users st ->
  c ∉ clients st ->
  links st !! c = Some Shut ->
  (forall c', c' ∈ clients st -> links st !! c' <> Some Stale) ->
  let st' :=
    emit_all
      (((fun c' => Sent c' (System (name u ++ py " joined the chat!")))
          <$> recipients None st) ++
       ((fun c' => Sent c' (UserList (snd <$> dict_set c u (users st))))
          <$> recipients None st)) (signed_in c u st) in
  handle_client_turn c now (Some (JDict data)) st = (Ok false, st') /\
  dict_lookup c (users st') = Some u /\
  remove_client c st' = (Ok tt, st').
Proof.
  intros Ht Hv He Hb Ha Hc Hl Hh st'.
  assert (remove_client c st' = (Ok tt, st')) as Hrm.
  { unfold remove_client, modify, remove_client_with.
    by destruct (decide (c ∈ clients st')). }
  assert (handle_message c now (Some (JDict data)) st
          = (Raise ConnectionClosed, st')) as Hm.
  { rewrite handle_message_auth by done. unfold handle_auth.
    rewrite Hv, He. cbn [negb].
    unfold bind at 1. unfold gets at 1.
    rewrite bool_decide_eq_false_2 by done.
    unfold bind at 1. unfold gets at 1.
    rewrite bool_decide_eq_false_2 by done.
    unfold bind at 1. unfold modify at 1.
    unfold bind at 1. unfold modify at 1.
    unfold bind at 1. unfold modify at 1. fold (signed_in c u st).
    unfold bind at 1. unfold broadcast_system, broadcast_json, modify at 1.
    rewrite broadcast_healthy by exact Hh.
    unfold bind at 1. unfold broadcast_user_list.
    unfold bind at 1. unfold gets at 1. unfold broadcast_json, modify.
    rewrite broadcast_healthy by exact Hh.
    rewrite emit_all_app.
    unfold bind at 1. unfold send. cbn [links emit_all signed_in
      set_rate_limit_counts set_unsafe_counts set_users].
    by rewrite Hl. }
  split; [|split; [|done]].
  - unfold handle_client_turn. by rewrite Hm, Hrm.
  - unfold st'. cbn. apply dict_lookup_set_eq.
Qed.

End Leftover.

Lemma auth_after_removal_leaves_entry_witness :
  let st := mem Demo.dropped in
  let turn := @handle_client_turn Demo.services 1%nat 5000000
                (Demo.auth "alice@x.org") st in
  1%nat ∈ looping Demo.dropped /\
  fst turn = Ok false /\
  dict_lookup 1%nat (users (snd turn)) = Some Demo.alice /\
  remove_client 1%nat (snd turn) = (Ok tt, snd turn).
Proof.
  assert (1%nat ∈ looping Demo.dropped) as Hloop by compute_done.
  assert (forall c', c' ∈ clients (mem Demo.dropped) ->
                     links (mem Demo.dropped) !! c' <> Some Stale) as Hh.
  { assert (clients (mem Demo.dropped) = [2]%nat) as -> by compute_done.
    intros c' [->|[]%elem_of_nil]%elem_of_cons. compute_done. }
  destruct (@auth_after_removal_leaves_entry Demo.services 1%nat 5000000
              (Demo.auth_data "alice@x.org") Demo.alice (mem Demo.dropped))
    as (Hturn & Hu & Hrm); try compute_done; [exact Hh|].
  intros st turn. unfold turn, st, Demo.auth. rewrite Hturn. cbn [fst snd].
  split; [exact Hloop|]. split; [done|]. split; [exact Hu|exact Hrm].
Defined.
